(** * Prioritized replay buffer: a shallow embedding of
      [dqn_agents/buffers/replay_buffer.py], class [PrioritizedReplayBuffer].

    The Python object is a record of scalars plus two numpy object arrays of
    [buffer_size] rows: [experience] (the transitions) and [data] (one row
    [priority, probability, weight, index] per slot).  Methods mutate the
    object in place; here every method is a function from the state before
    the call to the state after it, paired with the exception it raised, if
    any (a Python exception leaves the mutations done so far in place).

    Numbers.  The code mixes Python ints, Python floats and whatever numeric
    type the caller passes as TD errors.  The embedding is parametric in the
    carrier of these numbers: the class [PyNum] lists the operators the code
    applies and nothing about them is assumed unless a theorem says so.
    Operators are total in the carrier (positions where CPython would raise
    ZeroDivisionError on Python floats yield whatever the carrier yields, as
    numpy floats do).  A concrete carrier of exact rationals, [xnum], runs
    the code on inputs whose float arithmetic is exact. *)

From Stdlib Require Import ZArith QArith Lia Lqa.
From stdpp Require Import base option list.

(** ** Numbers as the code uses them *)

Class PyNum (num : Type) : Type := {
  lit : Q -> num;                  (* a literal, or an int used as a number *)
  nadd : num -> num -> num;        (* x + y  *)
  nsub : num -> num -> num;        (* x - y  *)
  nmul : num -> num -> num;        (* x * y  *)
  ndiv : num -> num -> num;        (* x / y  *)
  npow : num -> num -> num;        (* x ** y *)
  nneg : num -> num;               (* - x    *)
  ngtb : num -> num -> bool;       (* x > y  *)
  nltb : num -> num -> bool;       (* x < y  *)
  nleb : num -> num -> bool;       (* x <= y *)
  neqb : num -> num -> bool;       (* x == y *)
  isfinite : num -> bool           (* math.isfinite *)
}.

Definition zero {num} `{PyNum num} : num := lit 0%Q.
Definition one {num} `{PyNum num} : num := lit 1%Q.
Definition of_nat {num} `{PyNum num} (n : nat) : num := lit (inject_Z (Z.of_nat n)).

(** What the draw needs to know about adding the literal 0 and comparing
    with it.  IEEE floats satisfy all three (a NaN compares false on both
    sides, and [c + 0] compares as [c] does). *)
Class ZeroLaws (num : Type) `{PyNum num} : Prop := {
  nltb_add_zero : forall x c, nltb x (nadd c zero) = nltb x c;
  nleb_add_zero : forall c, nleb (nadd c zero) zero = nleb c zero;
  nleb_zero_zero : nleb zero zero = true
}.

(** A value [random()] can return: scaling a positive finite total by it
    stays at or above 0 and strictly below the total. *)
Definition unit_draw {num} `{PyNum num} (u : num) : Prop :=
  forall t, nleb t zero = false -> isfinite t = true ->
    nltb (nmul u t) zero = false /\ nltb (nmul u t) t = true.

(** Exceptions that reach the caller. *)
Inductive exn : Set := ZeroDivisionError | IndexError | ValueError.

(** numpy's reading of an integer index on an axis of length [n]: negative
    indices count from the end, anything outside [-n, n) raises IndexError
    ([None]). *)
Definition np_index (n : nat) (i : Z) : option nat :=
  if ((0 <=? i) && (i <? Z.of_nat n))%Z then Some (Z.to_nat i)
  else if ((- Z.of_nat n <=? i) && (i <? 0))%Z then Some (Z.to_nat (i + Z.of_nat n))
  else None.

Module PrioritizedReplayBuffer.
Section Model.
Context {num : Type} `{PyNum num}.
(** [T] is the transition [(state, action, reward, next_state, done)], an
    opaque payload. *)
Context {T : Type}.

(** One row of [self.data]: columns 0..3. *)
Record Row : Type := mkRow {
  priority : num;      (* column 0 *)
  probability : num;   (* column 1 *)
  weight : num;        (* column 2 *)
  slot : Z             (* column 3, the index the row was written with *)
}.

(** A row of [np.zeros(..., dtype='object')]. *)
Definition zero_row : Row := mkRow zero zero zero 0.

Definition set_priority (p : num) (r : Row) : Row :=
  mkRow p (probability r) (weight r) (slot r).
Definition set_weight (w : num) (r : Row) : Row :=
  mkRow (priority r) (probability r) w (slot r).

(** The object.  [experience] rows are [None] until a transition is
    stored (the numpy array holds zeros there).  The attributes
    [sampled_batches] and [current_batch] are written once in [__init__]
    and never read: they are left out. *)
Record PRB : Type := mkPRB {
  buffer_size : nat;
  batch_size : nat;
  alpha : num;
  alpha_decay_rate : num;
  beta : num;
  beta_growth_rate : num;
  compute_weights : bool;
  experience_count : nat;
  experience : list (option T);
  data : list Row;
  priorities_sum_alpha : num;
  priorities_max : num;
  weights_max : num
}.

Definition set_alpha (v : num) (s : PRB) : PRB :=
  mkPRB (buffer_size s) (batch_size s) v (alpha_decay_rate s) (beta s)
    (beta_growth_rate s) (compute_weights s) (experience_count s)
    (experience s) (data s) (priorities_sum_alpha s) (priorities_max s)
    (weights_max s).
Definition set_beta (v : num) (s : PRB) : PRB :=
  mkPRB (buffer_size s) (batch_size s) (alpha s) (alpha_decay_rate s) v
    (beta_growth_rate s) (compute_weights s) (experience_count s)
    (experience s) (data s) (priorities_sum_alpha s) (priorities_max s)
    (weights_max s).
Definition set_experience_count (v : nat) (s : PRB) : PRB :=
  mkPRB (buffer_size s) (batch_size s) (alpha s) (alpha_decay_rate s) (beta s)
    (beta_growth_rate s) (compute_weights s) v
    (experience s) (data s) (priorities_sum_alpha s) (priorities_max s)
    (weights_max s).
Definition set_experience (v : list (option T)) (s : PRB) : PRB :=
  mkPRB (buffer_size s) (batch_size s) (alpha s) (alpha_decay_rate s) (beta s)
    (beta_growth_rate s) (compute_weights s) (experience_count s)
    v (data s) (priorities_sum_alpha s) (priorities_max s)
    (weights_max s).
Definition set_data (v : list Row) (s : PRB) : PRB :=
  mkPRB (buffer_size s) (batch_size s) (alpha s) (alpha_decay_rate s) (beta s)
    (beta_growth_rate s) (compute_weights s) (experience_count s)
    (experience s) v (priorities_sum_alpha s) (priorities_max s)
    (weights_max s).
Definition set_priorities_sum_alpha (v : num) (s : PRB) : PRB :=
  mkPRB (buffer_size s) (batch_size s) (alpha s) (alpha_decay_rate s) (beta s)
    (beta_growth_rate s) (compute_weights s) (experience_count s)
    (experience s) (data s) v (priorities_max s)
    (weights_max s).
Definition set_priorities_max (v : num) (s : PRB) : PRB :=
  mkPRB (buffer_size s) (batch_size s) (alpha s) (alpha_decay_rate s) (beta s)
    (beta_growth_rate s) (compute_weights s) (experience_count s)
    (experience s) (data s) (priorities_sum_alpha s) v
    (weights_max s).
Definition set_weights_max (v : num) (s : PRB) : PRB :=
  mkPRB (buffer_size s) (batch_size s) (alpha s) (alpha_decay_rate s) (beta s)
    (beta_growth_rate s) (compute_weights s) (experience_count s)
    (experience s) (data s) (priorities_sum_alpha s) (priorities_max s)
    v.

(** [__init__(buffer_size, batch_size, seed, compute_weights, alpha, beta)].
    The seed only feeds the global generator; the draws are an explicit
    argument of [sample] below. *)
Definition init (size batch : nat) (cw : bool) (a b : num) : PRB :=
  mkPRB size batch a (lit (99 # 100)) b (lit (1001 # 1000)) cw 0
    (replicate size None) (replicate size zero_row) zero one one.

(** [__len__] *)
Definition len (s : PRB) : nat := experience_count s.

(** [N = min(self.experience_count, self.buffer_size)], the number of
    slots written so far. *)
Definition occupied_count (s : PRB) : nat :=
  Nat.min (experience_count s) (buffer_size s).

(** Reading row [i] of [data]; [i] is in range wherever the code reads
    (the arrays are allocated with [buffer_size] rows). *)
Definition row_at (d : list Row) (i : nat) : Row := default zero_row (d !! i).

(** [max(rows, key=...)]: the first row whose key no later row exceeds.
    On an empty array Python raises; the code only calls it on a buffer
    with at least one row. *)
Definition py_max (key : Row -> num) (rows : list Row) : Row :=
  match rows with
  | [] => zero_row
  | r :: rest =>
      fold_left (fun best x => if ngtb (key x) (key best) then x else best) rest r
  end.

(** *** add *)

(** The slot an [add] writes: the counter is incremented first. *)
Definition add_index (s : PRB) : nat :=
  (experience_count s + 1) mod buffer_size s.

(** The body of [if self.experience_count > self.buffer_size:]; [temp] is
    a view of row [index], so [temp[2]] is read from the current array. *)
Definition evict (index : nat) (s : PRB) : PRB :=
  let temp0 := priority (row_at (data s) index) in
  let s := set_priorities_sum_alpha
             (nsub (priorities_sum_alpha s) (npow temp0 (alpha s))) s in
  let s :=
    if neqb temp0 (priorities_max s) then
      let s := set_data (alter (set_priority zero) index (data s)) s in
      set_priorities_max (priority (py_max priority (data s))) s
    else s in
  let s :=
    if compute_weights s then
      if neqb (weight (row_at (data s) index)) (weights_max s) then
        let s := set_data (alter (set_weight zero) index (data s)) s in
        set_weights_max (weight (py_max weight (data s))) s
      else s
    else s in
  set_experience_count (buffer_size s) s.

(** The last six lines of [add]: the new row takes the current maxima. *)
Definition store (index : nat) (tr : T) (s : PRB) : PRB :=
  let p := priorities_max s in
  let w := weights_max s in
  let s := set_priorities_sum_alpha
             (nadd (priorities_sum_alpha s) (npow p (alpha s))) s in
  let pr := ndiv (npow p (alpha s)) (priorities_sum_alpha s) in
  let s := set_experience (<[index := Some tr]> (experience s)) s in
  set_data (<[index := mkRow p pr w (Z.of_nat index)]> (data s)) s.

(** [add(state, action, reward, next_state, done)].  With
    [buffer_size = 0] the [%] raises after the counter was incremented. *)
Definition add (tr : T) (s : PRB) : PRB * option exn :=
  let s := set_experience_count (experience_count s + 1) s in
  if buffer_size s =? 0 then (s, Some ZeroDivisionError)
  else
    let index := experience_count s mod buffer_size s in
    let s := if buffer_size s <? experience_count s then evict index s else s in
    (store index tr s, None).

(** The object between the eviction branch and the store, in terms of
    the state before the call ([add_unfold] below). *)
Definition add_mid (s : PRB) : PRB :=
  let s1 := set_experience_count (experience_count s + 1) s in
  if buffer_size s <? experience_count s + 1 then evict (add_index s) s1 else s1.

(** A run of [add] calls, oldest first; the caller goes on after an
    exception, the object keeps its state. *)
Definition add_all (trs : list T) (s : PRB) : PRB :=
  fold_left (fun s tr => fst (add tr s)) trs s.

(** *** update_priorities *)

(** One turn of [for td, index in zip(tds, indices):].  The maxima are
    raised before [self.data[index, 0]] is read, so an index numpy
    refuses leaves them raised. *)
Definition update_priority (td : num) (index : Z) (s : PRB) : PRB * option exn :=
  let N := occupied_count s in
  let updated_priority := td in
  let s := if ngtb updated_priority (priorities_max s)
           then set_priorities_max updated_priority s else s in
  let updated_weight :=
    if compute_weights s
    then ndiv (npow (nmul (of_nat N) updated_priority) (nneg (beta s))) (weights_max s)
    else one in
  let s := if compute_weights s
           then (if ngtb updated_weight (weights_max s)
                 then set_weights_max updated_weight s else s)
           else s in
  match np_index (length (data s)) index with
  | None => (s, Some IndexError)
  | Some i =>
      let old_priority := priority (row_at (data s) i) in
      let s := set_priorities_sum_alpha
                 (nadd (priorities_sum_alpha s)
                    (nsub (npow updated_priority (alpha s))
                          (npow old_priority (alpha s)))) s in
      let updated_probability :=
        ndiv (npow updated_priority (alpha s)) (priorities_sum_alpha s) in
      (set_data (<[i := mkRow updated_priority updated_probability
                           updated_weight index]> (data s)) s, None)
  end.

Fixpoint update_pairs (pairs : list (num * Z)) (s : PRB) : PRB * option exn :=
  match pairs with
  | [] => (s, None)
  | (td, index) :: rest =>
      match update_priority td index s with
      | (s', None) => update_pairs rest s'
      | (s', Some e) => (s', Some e)
      end
  end.

(** [update_priorities(tds, indices)]; [zip] stops at the shorter list. *)
Definition update_priorities (tds : list num) (indices : list Z) (s : PRB)
  : PRB * option exn :=
  update_pairs (zip tds indices) s.

(** *** update_parameters *)

(** [np.sum] of an object array: a left-to-right reduction with [+]
    started at the first element, 0 when there is none. *)
Definition np_sum (l : list num) : num :=
  match l with
  | [] => zero
  | x :: rest => fold_left nadd rest x
  end.

(** One turn of [for element in self.data:], [element] being row [i] as
    it is when the loop reaches it.  The row is written back at
    [int(element[-1])], the index stored in its last column. *)
Definition refresh_row (N : nat) (i : nat) (s : PRB) : PRB * option exn :=
  let element := row_at (data s) i in
  let prob := ndiv (npow (priority element) (alpha s)) (priorities_sum_alpha s) in
  let w :=
    if compute_weights s
    then ndiv (npow (nmul (of_nat N) (probability element)) (nneg (beta s)))
              (weights_max s)
    else one in
  match np_index (length (data s)) (slot element) with
  | None => (s, Some IndexError)
  | Some j =>
      (set_data (<[j := mkRow (priority element) prob w (slot element)]> (data s)) s,
       None)
  end.

Fixpoint refresh_rows (N : nat) (rows : list nat) (s : PRB) : PRB * option exn :=
  match rows with
  | [] => (s, None)
  | i :: rest =>
      match refresh_row N i s with
      | (s', None) => refresh_rows N rest s'
      | (s', Some e) => (s', Some e)
      end
  end.

Definition update_parameters (s : PRB) : PRB * option exn :=
  let s := set_alpha (nmul (alpha s) (alpha_decay_rate s)) s in
  let s := set_beta (nmul (beta s) (beta_growth_rate s)) s in
  let s := if ngtb (beta s) one then set_beta one s else s in
  let N := occupied_count s in
  let s := set_priorities_sum_alpha
             (np_sum ((fun r => npow (priority r) (alpha s)) <$> data s)) s in
  refresh_rows N (seq 0 (length (data s))) s.

(** *** sample *)

(** [itertools.accumulate(weights)]: running sums, the first weight as
    it is. *)
Fixpoint accumulate_from (acc : num) (ws : list num) : list num :=
  match ws with
  | [] => []
  | w :: rest => let a := nadd acc w in a :: accumulate_from a rest
  end.

Definition accumulate (ws : list num) : list num :=
  match ws with
  | [] => []
  | w :: rest => w :: accumulate_from w rest
  end.

(** [bisect.bisect_right(a, x, lo, hi)]:
    [while lo < hi: mid = (lo+hi)//2; if x < a[mid]: hi = mid else: lo = mid+1].
    The loop shortens [hi - lo] every turn, so [hi - lo] turns are enough
    ([bisect_loop_fuel] below). *)
Fixpoint bisect_loop (fuel : nat) (a : list num) (x : num) (lo hi : nat) : nat :=
  match fuel with
  | O => lo
  | S fuel' =>
      if lo <? hi then
        let mid := (lo + hi) / 2 in
        if nltb x (default zero (a !! mid))
        then bisect_loop fuel' a x lo mid
        else bisect_loop fuel' a x (mid + 1) hi
      else lo
  end.

Definition bisect (a : list num) (x : num) (lo hi : nat) : nat :=
  bisect_loop (hi - lo) a x lo hi.

(** [random.choices(population, weights, k=k)] as CPython 3.9 and later
    define it in Lib/random.py; [rnd i] is what the [i]-th call of
    [random()] returns. *)
Definition choices (rnd : nat -> num) (population : list Row)
    (weights : list num) (k : nat) : exn + list Row :=
  let n := length population in
  let cum_weights := accumulate weights in
  if negb (length cum_weights =? n) then inl ValueError
  else
    match last cum_weights with
    | None => inl IndexError                     (* cum_weights[-1] *)
    | Some c =>
        let total := nadd c zero in              (* + 0.0 *)
        if nleb total zero then inl ValueError
        else if negb (isfinite total) then inl ValueError
        else inr ((fun i =>
                     row_at population
                       (bisect cum_weights (nmul (rnd i) total) 0 (n - 1)))
                  <$> seq 0 k)
    end.

Definition _encode_samples (rnd : nat -> num) (s : PRB) : exn + list Row :=
  choices rnd (data s) (probability <$> data s) (batch_size s).

(** What [sample] returns: the transitions read at the drawn rows' stored
    indices (the five stacked columns, kept together), their weights and
    the indices.  [sampled_batch[:, 2]] raises on the empty array that
    [batch_size = 0] gives.  [np.stack] also raises when payloads differ
    in shape; payloads are opaque here. *)
Definition sample (rnd : nat -> num) (s : PRB)
  : exn + (list (option T) * list num * list Z) :=
  match _encode_samples rnd s with
  | inl e => inl e
  | inr sampled_batch =>
      if length sampled_batch =? 0 then inl IndexError
      else
        let weights := weight <$> sampled_batch in
        let idx := slot <$> sampled_batch in
        match mapM (fun i => np_index (length (experience s)) i
                             ≫= fun j => experience s !! j) idx with
        | None => inl IndexError
        | Some trs => inr (trs, weights, idx)
        end
  end.

(** *** Call sequences *)

Inductive call : Type :=
| Add (tr : T)
| UpdatePriorities (tds : list num) (indices : list Z)
| UpdateParameters
| Sample (rnd : nat -> num).

(** The object after a call, whether it returned or raised. *)
Definition after (c : call) (s : PRB) : PRB :=
  match c with
  | Add tr => fst (add tr s)
  | UpdatePriorities tds indices => fst (update_priorities tds indices s)
  | UpdateParameters => fst (update_parameters s)
  | Sample _ => s
  end.

Definition run (cs : list call) (s : PRB) : PRB :=
  fold_left (fun s c => after c s) cs s.

(** The arrays keep the shape [__init__] gave them. *)
Definition shaped (s : PRB) : Prop :=
  length (data s) = buffer_size s /\ length (experience s) = buffer_size s.






(** *** What the specification says, for comparison with the code *)


(** [write_slot = experience_count mod capacity], from the counter before
    the call. *)
Definition spec_write_slot (s : PRB) : nat :=
  experience_count s mod buffer_size s.

(** [(occupied_count * priority) ^ (- beta) / weights_max]. *)
Definition spec_weight (s : PRB) (r : Row) : num :=
  ndiv (npow (nmul (of_nat (occupied_count s)) (priority r)) (nneg (beta s)))
       (weights_max s).

(** The last [c] of the transitions added so far. *)
Definition most_recent (c : nat) (trs : list T) : list T :=
  drop (length trs - c) trs.

End Model.

Arguments Row num : clear implicits.
Arguments PRB num T : clear implicits.
Arguments call num T : clear implicits.

End PrioritizedReplayBuffer.

(** ** An exact carrier

    Rationals, with [None] where the exact value is not a rational this
    model computes or where CPython raises (division by zero, a zero base
    under a negative exponent, a non-integer exponent of a base other than
    1).  [None] compares false with everything, as a NaN does.  Every run
    below stays on values floats represent exactly. *)
Definition xnum : Type := option Q.

Definition xlift2 (f : Q -> Q -> Q) (a b : xnum) : xnum :=
  match a, b with
  | Some x, Some y => Some (Qred (f x y))
  | _, _ => None
  end.

Definition xdiv (a b : xnum) : xnum :=
  match a, b with
  | Some x, Some y => if Qeq_bool y 0 then None else Some (Qred (x / y))
  | _, _ => None
  end.

Definition xpow (a b : xnum) : xnum :=
  match a, b with
  | Some x, Some y =>
      if Pos.eqb (Qden (Qred y)) 1 then
        let e := Qnum (Qred y) in
        if ((e <? 0)%Z && Qeq_bool x 0)%bool then None
        else Some (Qred (Qpower x e))
      else if Qeq_bool x 1 then Some 1%Q
      else None
  | _, _ => None
  end.

Definition xcmp (f : Q -> Q -> bool) (a b : xnum) : bool :=
  match a, b with
  | Some x, Some y => f x y
  | _, _ => false
  end.

Definition Qlt_bool (x y : Q) : bool := negb (Qle_bool y x).

#[export] Instance xnum_PyNum : PyNum xnum := {
  lit q := Some (Qred q);
  nadd := xlift2 Qplus;
  nsub := xlift2 Qminus;
  nmul := xlift2 Qmult;
  ndiv := xdiv;
  npow := xpow;
  nneg a := match a with Some x => Some (Qred (- x)) | None => None end;
  ngtb a b := xcmp Qlt_bool b a;
  nltb := xcmp Qlt_bool;
  nleb := xcmp Qle_bool;
  neqb := xcmp Qeq_bool;
  isfinite a := match a with Some _ => true | None => false end
}.

(** Inputs of the runs below: a buffer of the given capacity holding
    transitions numbered by [nat], batch size 2, [alpha] and [beta] as
    given; and a sequence with every kind of call. *)
Definition fresh (size : nat) (cw : bool) (a b : Q)
  : PrioritizedReplayBuffer.PRB xnum nat :=
  PrioritizedReplayBuffer.init size 2 cw (Some a) (Some b).

Definition mixed_calls : list (PrioritizedReplayBuffer.call xnum nat) :=
  [PrioritizedReplayBuffer.Add 1;
   PrioritizedReplayBuffer.Sample (fun _ => Some (1 # 2)%Q);
   PrioritizedReplayBuffer.UpdatePriorities [Some 2%Q] [1%Z];
   PrioritizedReplayBuffer.UpdateParameters;
   PrioritizedReplayBuffer.Add 2;
   PrioritizedReplayBuffer.Add 3].

(** ** The uniform buffer

    Class [ReplayBuffer] of the same file: a Python list that grows to
    [size] entries and is then overwritten in a circle.  A transition is
    the 5-tuple [add] builds, kept opaque; the five arrays
    [_encode_sample] returns are kept together as the list of the
    transitions they were unpacked from (the [np.array] conversions of the
    payload are outside the model). *)
Module ReplayBuffer.
Section Model.
Context {T : Type}.

Record RB : Type := mkRB {
  _storage : list T;
  _maxsize : nat;
  _next_idx : nat
}.

(** [__init__(size)] *)
Definition init (size : nat) : RB := mkRB [] size 0.

(** [__len__] *)
Definition len (s : RB) : nat := length (_storage s).

(** [add(obs_t, action, reward, obs_tp1, done)].  The list is updated
    before [% self._maxsize] is evaluated, so with [size = 0] the
    transition is stored and ZeroDivisionError raised, the cursor left as
    it was. *)
Definition add (data : T) (s : RB) : RB * option exn :=
  let storage :=
    if length (_storage s) <=? _next_idx s
    then _storage s ++ [data]
    else <[_next_idx s := data]> (_storage s) in
  if _maxsize s =? 0
  then (mkRB storage (_maxsize s) (_next_idx s), Some ZeroDivisionError)
  else (mkRB storage (_maxsize s) ((_next_idx s + 1) mod _maxsize s), None).

Definition add_all (trs : list T) (s : RB) : RB :=
  fold_left (fun s tr => fst (add tr s)) trs s.

(** [self._storage[i]] in a loop: Python reads a negative index from the
    end of the list and raises IndexError outside [-len, len), as numpy
    does on an axis. *)
Fixpoint _encode_sample (idxes : list Z) (s : RB) : exn + list T :=
  match idxes with
  | [] => inr []
  | i :: rest =>
      match np_index (length (_storage s)) i ≫= (fun j => _storage s !! j) with
      | None => inl IndexError
      | Some data =>
          match _encode_sample rest s with
          | inl e => inl e
          | inr batch => inr (data :: batch)
          end
      end
  end.

(** [random.randint(a, b)]: ValueError on an empty range, otherwise
    [a + _randbelow(b - a + 1)].  The generator is a stream of naturals;
    [_randbelow(n)] is the stream's value reduced below [n], so that every
    value below [n] is the result for some stream and no other value is. *)
Definition randint (r : nat) (a b : Z) : exn + Z :=
  if (b <? a)%Z then inl ValueError
  else inr (a + Z.of_nat r mod (b - a + 1))%Z.

(** The list comprehension of [sample]: [batch_size] draws, the first
    exception ends it. *)
Fixpoint draw_idxes (rnd : nat -> nat) (hi : Z) (ks : list nat) : exn + list Z :=
  match ks with
  | [] => inr []
  | k :: rest =>
      match randint (rnd k) 0 hi with
      | inl e => inl e
      | inr i =>
          match draw_idxes rnd hi rest with
          | inl e => inl e
          | inr idxes => inr (i :: idxes)
          end
      end
  end.

(** [sample(batch_size)] *)
Definition sample (rnd : nat -> nat) (batch_size : nat) (s : RB) : exn + list T :=
  match draw_idxes rnd (Z.of_nat (length (_storage s)) - 1) (seq 0 batch_size) with
  | inl e => inl e
  | inr idxes => _encode_sample idxes s
  end.

End Model.

Arguments RB T : clear implicits.

End ReplayBuffer.

(** ** Further invariants of the prioritized buffer *)

(** What the maxima need of [>]: nothing is above itself, a value not
    above a bound is not above anything above the bound, and 0 is not
    above 1.  IEEE floats satisfy these, NaN included. *)
Class OrderLaws (num : Type) `{PyNum num} : Prop := {
  ngtb_irrefl : forall x, ngtb x x = false;
  ngtb_le_lt : forall y b x, ngtb y b = false -> ngtb x b = true -> ngtb y x = false;
  ngtb_zero_one : ngtb zero one = false
}.

Module PrioritizedReplayBufferInvariants.
Import PrioritizedReplayBuffer.
Section Invariants.
Context {num : Type} `{PyNum num} {T : Type}.

(** Every row carries, in its last column, an index numpy reads as the
    row's own position. *)
Definition self_indexed (s : PRB num T) : Prop :=
  forall i r, data s !! i = Some r ->
    np_index (length (data s)) (slot r) = Some i.

(** The same, except that rows beyond the counter may still be rows of
    zeros (whose last column reads as position 0). *)
Definition placed_rows (d : list (Row num)) (count : nat) : Prop :=
  forall i r, d !! i = Some r ->
    np_index (length d) (slot r) = Some i \/ (r = zero_row /\ count < i).

Definition placed (s : PRB num T) : Prop :=
  placed_rows (data s) (experience_count s).

(** No stored priority is above [priorities_max]. *)
Definition priorities_bounded (s : PRB num T) : Prop :=
  Forall (fun r => ngtb (priority r) (priorities_max s) = false) (data s).


(** The number of [add] calls in a sequence. *)
Fixpoint adds (cs : list (call num T)) : nat :=
  match cs with
  | [] => 0
  | Add _ :: rest => S (adds rest)
  | _ :: rest => adds rest
  end.

End Invariants.
End PrioritizedReplayBufferInvariants.

(** * Properties *)

Module PrioritizedReplayBufferFacts.
Import PrioritizedReplayBuffer.

(** Projections through the setters, without unfolding arithmetic. *)
Ltac prb_simpl :=
  cbn [buffer_size batch_size alpha alpha_decay_rate beta beta_growth_rate
       compute_weights experience_count experience data priorities_sum_alpha
       priorities_max weights_max set_alpha set_beta set_experience_count
       set_experience set_data set_priorities_sum_alpha set_priorities_max
       set_weights_max priority probability weight slot set_priority
       set_weight fst snd] in *.

Section AddFacts.
Context {num : Type} `{PyNum num} {T : Type}.
Implicit Types (s : PRB num T) (tr : T) (i j : nat).

(** *** What [evict] and [store] touch *)

Lemma evict_frame i s :
  buffer_size (evict i s) = buffer_size s /\
  batch_size (evict i s) = batch_size s /\
  experience (evict i s) = experience s /\
  compute_weights (evict i s) = compute_weights s /\
  alpha (evict i s) = alpha s /\
  beta (evict i s) = beta s /\
  experience_count (evict i s) = buffer_size s /\
  length (data (evict i s)) = length (data s).
Proof.
  unfold evict; repeat case_match; prb_simpl;
    rewrite ?length_alter; repeat split; reflexivity.
Qed.

Lemma evict_other_rows i j s :
  j <> i -> data (evict i s) !! j = data s !! j.
Proof.
  intros Hne. unfold evict; repeat case_match; prb_simpl;
    rewrite ?list_lookup_alter_ne by congruence; reflexivity.
Qed.


(** *** The counter and the written slot *)

Lemma add_returns tr s :
  buffer_size s <> 0 -> snd (add tr s) = None.
Proof.
  intros Hsz. unfold add. prb_simpl.
  destruct (Nat.eqb_spec (buffer_size s) 0); [contradiction | reflexivity].
Qed.

Lemma add_unfold tr s :
  buffer_size s <> 0 ->
  add tr s = (store (add_index s) tr (add_mid s), None).
Proof.
  intros Hsz. unfold add, add_mid, add_index. prb_simpl.
  destruct (Nat.eqb_spec (buffer_size s) 0); [contradiction | reflexivity].
Qed.

Lemma add_mid_frame s :
  buffer_size (add_mid s) = buffer_size s /\
  experience (add_mid s) = experience s /\
  compute_weights (add_mid s) = compute_weights s /\
  alpha (add_mid s) = alpha s /\
  length (data (add_mid s)) = length (data s) /\
  experience_count (add_mid s) =
    (if buffer_size s <? experience_count s + 1
     then buffer_size s else experience_count s + 1).
Proof.
  unfold add_mid. case_match.
  - pose proof (evict_frame (add_index s)
                  (set_experience_count (experience_count s + 1) s)) as F.
    prb_simpl. intuition congruence.
  - prb_simpl. repeat split; reflexivity.
Qed.

Lemma add_mid_other_rows s j :
  j <> add_index s -> data (add_mid s) !! j = data s !! j.
Proof.
  intros Hne. unfold add_mid. case_match; [|reflexivity].
  rewrite evict_other_rows by exact Hne. reflexivity.
Qed.

Lemma add_frame tr s :
  buffer_size (fst (add tr s)) = buffer_size s /\
  length (data (fst (add tr s))) = length (data s) /\
  length (experience (fst (add tr s))) = length (experience s) /\
  compute_weights (fst (add tr s)) = compute_weights s.
Proof.
  destruct (Nat.eq_dec (buffer_size s) 0) as [Hz | Hnz].
  - unfold add. prb_simpl.
    destruct (Nat.eqb_spec (buffer_size s) 0); [|contradiction].
    prb_simpl. repeat split; reflexivity.
  - rewrite add_unfold by exact Hnz.
    destruct (add_mid_frame s) as (Hb & He & Hc & _ & Hl & _).
    unfold store; prb_simpl. rewrite !length_insert.
    rewrite Hb, He, Hc, Hl. repeat split; reflexivity.
Qed.

Lemma add_shaped tr s : shaped s -> shaped (fst (add tr s)).
Proof.
  unfold shaped. destruct (add_frame tr s) as (Hb & Hd & He & _).
  rewrite Hb, Hd, He. trivial.
Qed.

Lemma add_experience_count tr s :
  buffer_size s <> 0 ->
  experience_count (fst (add tr s)) =
    (if buffer_size s <? experience_count s + 1
     then buffer_size s else experience_count s + 1).
Proof.
  intros Hsz. rewrite add_unfold by exact Hsz.
  destruct (add_mid_frame s) as (_ & _ & _ & _ & _ & Hc).
  unfold store; prb_simpl. exact Hc.
Qed.

Lemma add_experience tr s :
  buffer_size s <> 0 ->
  experience (fst (add tr s)) = <[add_index s := Some tr]> (experience s).
Proof.
  intros Hsz. rewrite add_unfold by exact Hsz.
  destruct (add_mid_frame s) as (_ & He & _).
  unfold store; prb_simpl. rewrite He. reflexivity.
Qed.

Lemma add_other_rows tr s j :
  buffer_size s <> 0 -> j <> add_index s ->
  data (fst (add tr s)) !! j = data s !! j.
Proof.
  intros Hsz Hne. rewrite add_unfold by exact Hsz.
  unfold store; prb_simpl.
  rewrite list_lookup_insert_ne by congruence.
  apply add_mid_other_rows, Hne.
Qed.

Lemma add_all_snoc trs tr s :
  add_all (trs ++ [tr]) s = fst (add tr (add_all trs s)).
Proof. unfold add_all. rewrite fold_left_app. reflexivity. Qed.

Lemma add_all_frame trs s :
  buffer_size (add_all trs s) = buffer_size s /\
  (shaped s -> shaped (add_all trs s)).
Proof.
  induction trs as [|tr trs IH] using rev_ind; [split; trivial|].
  rewrite add_all_snoc. destruct IH as [IHb IHs].
  destruct (add_frame tr (add_all trs s)) as (Hb & _).
  split; [congruence|]. intros Hs. apply add_shaped, IHs, Hs.
Qed.

Lemma add_index_lt s : buffer_size s <> 0 -> add_index s < buffer_size s.
Proof. intros Hsz. unfold add_index. apply Nat.mod_upper_bound, Hsz. Qed.

Lemma init_shaped size batch cw (a b : num) :
  shaped (init (T := T) size batch cw a b).
Proof. unfold shaped, init. prb_simpl. rewrite !length_replicate. auto. Qed.

(** *** What [add] guarantees *)

(** C4, as the code has it: [add] caps the counter.  After [n] calls on a
    fresh buffer of capacity [c > 0], [experience_count] is [min n c]. *)
Theorem experience_count_capped (c batch : nat) (cw : bool) (a b : num)
    (trs : list T) :
  0 < c ->
  experience_count (add_all trs (init c batch cw a b)) = Nat.min (length trs) c.
Proof.
  intros Hc. induction trs as [|tr trs IH] using rev_ind; [reflexivity|].
  rewrite add_all_snoc.
  destruct (add_all_frame trs (init (T := T) c batch cw a b)) as [Hb _].
  change (buffer_size (init c batch cw a b)) with c in Hb.
  rewrite add_experience_count by lia.
  rewrite Hb, IH, length_app. cbn [length].
  destruct (Nat.ltb_spec c (Nat.min (length trs) c + 1)); lia.
Qed.

(** C5, as the code has it: on a buffer that is not full, [add] writes
    the slot computed from the counter after its increment,
    [(experience_count + 1) mod buffer_size], stores that index in the
    row, and leaves every other slot alone. *)
Theorem add_writes_incremented_slot (s : PRB num T) (tr : T) :
  shaped s ->
  experience_count s < buffer_size s ->
  let i := (experience_count s + 1) mod buffer_size s in
  let s' := fst (add tr s) in
  snd (add tr s) = None /\
  experience s' !! i = Some (Some tr) /\
  (exists r, data s' !! i = Some r /\ slot r = Z.of_nat i) /\
  (forall j, j <> i ->
     experience s' !! j = experience s !! j /\ data s' !! j = data s !! j) /\
  experience_count s' = experience_count s + 1.
Proof.
  intros [Hd He] Hlt i s'. subst s'.
  assert (Hsz : buffer_size s <> 0) by lia.
  assert (Hi : i < buffer_size s) by (apply Nat.mod_upper_bound, Hsz).
  change i with (add_index s) in *.
  split; [apply add_returns, Hsz|].
  split; [rewrite add_experience by exact Hsz;
          apply list_lookup_insert_eq; lia|].
  split.
  { rewrite add_unfold by exact Hsz. unfold store; prb_simpl.
    destruct (add_mid_frame s) as (_ & _ & _ & _ & Hl & _).
    eexists. split; [apply list_lookup_insert_eq; lia | reflexivity]. }
  split.
  { intros j Hj. split.
    - rewrite add_experience by exact Hsz.
      apply list_lookup_insert_ne. congruence.
    - apply add_other_rows; assumption. }
  rewrite add_experience_count by exact Hsz.
  destruct (Nat.ltb_spec (buffer_size s) (experience_count s + 1)); lia.
Qed.




End AddFacts.

Section UpdateFacts.
Context {num : Type} `{PyNum num} {T : Type}.
Implicit Types (s : PRB num T) (td : num) (index : Z).

Lemma np_index_lt n index i : np_index n index = Some i -> i < n.
Proof. unfold np_index. repeat case_match; intros [= <-]; lia. Qed.



(** *** update_priorities *)

Lemma update_priority_frame td index s :
  buffer_size (fst (update_priority td index s)) = buffer_size s /\
  experience (fst (update_priority td index s)) = experience s /\
  experience_count (fst (update_priority td index s)) = experience_count s /\
  compute_weights (fst (update_priority td index s)) = compute_weights s /\
  length (data (fst (update_priority td index s))) = length (data s).
Proof.
  unfold update_priority; repeat case_match; prb_simpl;
    rewrite ?length_insert; repeat split; reflexivity.
Qed.

Lemma update_priority_shaped td index s :
  shaped s -> shaped (fst (update_priority td index s)).
Proof.
  unfold shaped.
  destruct (update_priority_frame td index s) as (Hb & He & _ & _ & Hl).
  rewrite Hb, He, Hl. trivial.
Qed.




Lemma update_pairs_frame (pairs : list (num * Z)) s :
  buffer_size (fst (update_pairs pairs s)) = buffer_size s /\
  experience (fst (update_pairs pairs s)) = experience s /\
  experience_count (fst (update_pairs pairs s)) = experience_count s /\
  compute_weights (fst (update_pairs pairs s)) = compute_weights s /\
  length (data (fst (update_pairs pairs s))) = length (data s).
Proof.
  revert s. induction pairs as [|[td index] pairs IH]; intros s.
  - cbn. repeat split; reflexivity.
  - cbn [update_pairs].
    pose proof (update_priority_frame td index s) as F.
    destruct (update_priority td index s) as [s1 [e|]]; prb_simpl;
      [exact F|].
    specialize (IH s1). intuition congruence.
Qed.

Lemma update_priorities_shaped tds indices s :
  shaped s -> shaped (fst (update_priorities tds indices s)).
Proof.
  unfold shaped, update_priorities.
  destruct (update_pairs_frame (zip tds indices) s) as (Hb & He & _ & _ & Hl).
  rewrite Hb, He, Hl. trivial.
Qed.


(** *** update_parameters *)

Lemma refresh_row_frame N i s :
  buffer_size (fst (refresh_row N i s)) = buffer_size s /\
  batch_size (fst (refresh_row N i s)) = batch_size s /\
  experience (fst (refresh_row N i s)) = experience s /\
  experience_count (fst (refresh_row N i s)) = experience_count s /\
  compute_weights (fst (refresh_row N i s)) = compute_weights s /\
  weights_max (fst (refresh_row N i s)) = weights_max s /\
  priorities_max (fst (refresh_row N i s)) = priorities_max s /\
  length (data (fst (refresh_row N i s))) = length (data s).
Proof.
  unfold refresh_row; repeat case_match; prb_simpl;
    rewrite ?length_insert; repeat split; try reflexivity; congruence.
Qed.

Lemma refresh_rows_frame N rows s :
  buffer_size (fst (refresh_rows N rows s)) = buffer_size s /\
  batch_size (fst (refresh_rows N rows s)) = batch_size s /\
  experience (fst (refresh_rows N rows s)) = experience s /\
  experience_count (fst (refresh_rows N rows s)) = experience_count s /\
  compute_weights (fst (refresh_rows N rows s)) = compute_weights s /\
  weights_max (fst (refresh_rows N rows s)) = weights_max s /\
  priorities_max (fst (refresh_rows N rows s)) = priorities_max s /\
  length (data (fst (refresh_rows N rows s))) = length (data s).
Proof.
  revert s. induction rows as [|i rows IH]; intros s.
  - cbn. repeat split; reflexivity.
  - cbn [refresh_rows].
    pose proof (refresh_row_frame N i s) as F.
    destruct (refresh_row N i s) as [s1 [e|]]; prb_simpl; [exact F|].
    specialize (IH s1). intuition congruence.
Qed.

Lemma update_parameters_frame s :
  buffer_size (fst (update_parameters s)) = buffer_size s /\
  batch_size (fst (update_parameters s)) = batch_size s /\
  experience (fst (update_parameters s)) = experience s /\
  experience_count (fst (update_parameters s)) = experience_count s /\
  compute_weights (fst (update_parameters s)) = compute_weights s /\
  weights_max (fst (update_parameters s)) = weights_max s /\
  priorities_max (fst (update_parameters s)) = priorities_max s /\
  length (data (fst (update_parameters s))) = length (data s).
Proof.
  unfold update_parameters.
  match goal with |- context [refresh_rows ?N ?rows ?u] =>
    pose proof (refresh_rows_frame N rows u) as F end.
  case_match; prb_simpl; exact F.
Qed.

Lemma update_parameters_shaped s :
  shaped s -> shaped (fst (update_parameters s)).
Proof.
  unfold shaped.
  destruct (update_parameters_frame s) as (Hb & _ & He & _ & _ & _ & _ & Hl).
  rewrite Hb, He, Hl. trivial.
Qed.

Lemma after_shaped (c : call num T) s : shaped s -> shaped (after c s).
Proof.
  destruct c; cbn [after];
    auto using add_shaped, update_priorities_shaped, update_parameters_shaped.
Qed.

Lemma run_shaped (cs : list (call num T)) s : shaped s -> shaped (run cs s).
Proof.
  revert s. induction cs as [|c cs IH]; intros s Hs; [exact Hs|].
  apply IH, after_shaped, Hs.
Qed.

End UpdateFacts.

(** ** Weights when [compute_weights] is off *)

Section WeightFacts.
Context {num : Type} `{PyNum num} {T : Type}.
Implicit Types (s : PRB num T).












(** *** Rows of occupied slots *)













End WeightFacts.

(** ** The draw *)

Section SampleFacts.
Context {num : Type} `{PyNum num} {T : Type}.
Implicit Types (a ws : list num) (x u : num).

(** Once the fuel covers [hi - lo], more of it changes nothing: the loop
    has ended. *)
Lemma bisect_loop_fuel a x f1 :
  forall f2 lo hi, hi - lo <= f1 -> hi - lo <= f2 ->
    bisect_loop f1 a x lo hi = bisect_loop f2 a x lo hi.
Proof.
  induction f1 as [|f1 IH]; intros f2 lo hi H1 H2.
  - destruct f2 as [|f2]; [reflexivity|]. cbn [bisect_loop].
    destruct (Nat.ltb_spec lo hi); [lia | reflexivity].
  - destruct f2 as [|f2]; cbn [bisect_loop];
      destruct (Nat.ltb_spec lo hi) as [Hlt|]; try reflexivity; try lia.
    pose proof (Nat.div_mod_eq (lo + hi) 2) as Hdm.
    pose proof (Nat.mod_upper_bound (lo + hi) 2 ltac:(lia)) as Hm.
    destruct (nltb x (default zero (a !! ((lo + hi) / 2)))); apply IH; lia.
Qed.

(** What [bisect_right] returns, whatever the list: an index of
    [lo..hi]; unless it is [lo], [x] is not below the entry before it;
    unless it is [hi], [x] is below the entry at it. *)
Lemma bisect_loop_spec a x fuel :
  forall lo hi, lo <= hi -> hi - lo <= fuel ->
    let r := bisect_loop fuel a x lo hi in
    lo <= r <= hi /\
    (r = lo \/ nltb x (default zero (a !! (r - 1))) = false) /\
    (r = hi \/ nltb x (default zero (a !! r)) = true).
Proof.
  induction fuel as [|fuel IH]; intros lo hi Hle Hfuel; cbn [bisect_loop].
  - cbv zeta. repeat split; first [lia | left; lia].
  - destruct (Nat.ltb_spec lo hi) as [Hlt|Hge];
      [|cbv zeta; repeat split; first [lia | left; lia]].
    pose proof (Nat.div_mod_eq (lo + hi) 2) as Hdm.
    pose proof (Nat.mod_upper_bound (lo + hi) 2 ltac:(lia)) as Hm.
    set (mid := (lo + hi) / 2) in *.
    destruct (nltb x (default zero (a !! mid))) eqn:Hcmp.
    + destruct (IH lo mid ltac:(lia) ltac:(lia)) as (Hr & Hlo & Hhi).
      cbv zeta. split; [lia|]. split; [exact Hlo|].
      destruct Hhi as [-> | Hhi]; right; assumption.
    + destruct (IH (mid + 1) hi ltac:(lia) ltac:(lia)) as (Hr & Hlo & Hhi).
      cbv zeta. split; [lia|]. split; [|exact Hhi].
      destruct Hlo as [-> | Hlo]; right; [|exact Hlo].
      replace (mid + 1 - 1) with mid by lia. exact Hcmp.
Qed.

Lemma accumulate_from_length acc ws :
  length (accumulate_from acc ws) = length ws.
Proof.
  revert acc. induction ws as [|w ws IH]; intros acc; cbn; [|rewrite IH];
    reflexivity.
Qed.

Lemma accumulate_length ws : length (accumulate ws) = length ws.
Proof.
  destruct ws; cbn; [|rewrite accumulate_from_length]; reflexivity.
Qed.




Context `{!ZeroLaws num}.


Lemma accumulate_from_not_positive ws :
  forall acc, nleb acc zero = true -> Forall (fun w => w = zero) ws ->
    Forall (fun c => nleb c zero = true) (accumulate_from acc ws).
Proof.
  induction ws as [|w ws IH]; intros acc Hacc Hws; cbn; [constructor|].
  inversion Hws as [|? ? -> Hws']; subst.
  assert (Hstep : nleb (nadd acc zero) zero = true)
    by (rewrite nleb_add_zero; exact Hacc).
  constructor; [exact Hstep | apply IH; assumption].
Qed.

Lemma accumulate_not_positive ws :
  Forall (fun w => w = zero) ws ->
  Forall (fun c => nleb c zero = true) (accumulate ws).
Proof.
  destruct ws as [|w ws]; intros Hws; cbn; [constructor|].
  inversion Hws as [|? ? -> Hws']; subst.
  constructor; [apply nleb_zero_zero|].
  apply accumulate_from_not_positive; [apply nleb_zero_zero | exact Hws'].
Qed.


(** C8, as the code has it.  [sample] has no check of its own: it fails
    where [random.choices] does.  On a buffer with at least one row whose
    stored probabilities are all the literal 0, as a freshly constructed
    buffer has them, the total of the weights is not positive and the
    call raises ValueError. *)
Theorem sample_fails_without_probability (rnd : nat -> num) (s : PRB num T) :
  data s <> [] ->
  Forall (fun r => probability r = zero) (data s) ->
  sample rnd s = inl ValueError.
Proof.
  intros Hne Hzero. unfold sample, _encode_samples, choices.
  rewrite accumulate_length, length_fmap, Nat.eqb_refl. cbn [negb].
  assert (Hws : Forall (fun w => w = zero) (probability <$> data s))
    by (apply Forall_fmap; exact Hzero).
  pose proof (accumulate_not_positive _ Hws) as Hcum.
  destruct (last (accumulate (probability <$> data s))) as [c|] eqn:Hlast.
  - assert (Hc : nleb c zero = true).
    { rewrite Forall_forall in Hcum. apply Hcum.
      rewrite last_lookup in Hlast. apply list_elem_of_lookup. eauto. }
    rewrite nleb_add_zero, Hc. reflexivity.
  - rewrite last_lookup in Hlast. apply lookup_ge_None in Hlast.
    rewrite accumulate_length, length_fmap in Hlast.
    destruct (data s); [contradiction | cbn in Hlast; lia].
Qed.


End SampleFacts.
End PrioritizedReplayBufferFacts.

(** * Runs on the exact carrier *)

Module PrioritizedReplayBufferRuns.
Import PrioritizedReplayBuffer PrioritizedReplayBufferFacts.

Lemma Qle_bool_false (x y : Q) : Qle_bool x y = false <-> (y < x)%Q.
Proof.
  split.
  - intros Hf. apply Qnot_le_lt. intros Hle.
    apply Qle_bool_iff in Hle. congruence.
  - intros Hlt. destruct (Qle_bool x y) eqn:E; [|reflexivity].
    apply Qle_bool_iff in E. lra.
Qed.

Lemma Qle_bool_ext (x x' y y' : Q) :
  (x == x')%Q -> (y == y')%Q -> Qle_bool x y = Qle_bool x' y'.
Proof.
  intros Hx Hy. apply Bool.eq_iff_eq_true.
  rewrite !Qle_bool_iff, Hx, Hy. reflexivity.
Qed.

#[export] Instance xnum_ZeroLaws : ZeroLaws xnum.
Proof.
  split.
  - intros [x|] [c|]; try reflexivity. cbn. unfold Qlt_bool. f_equal.
    apply Qle_bool_ext; [|reflexivity].
    rewrite Qred_correct. change (Qred 0) with 0%Q. lra.
  - intros [c|]; [|reflexivity]. cbn.
    apply Qle_bool_ext; [|reflexivity].
    rewrite Qred_correct. change (Qred 0) with 0%Q. lra.
  - reflexivity.
Qed.

(** One half is a value [random()] can return. *)
Lemma half_unit_draw : unit_draw (Some (1 # 2)%Q : xnum).
Proof.
  intros [t|] Hpos Hfin; [|discriminate]. cbn in *.
  change (Qred 0) with 0%Q in *. apply Qle_bool_false in Hpos. unfold Qlt_bool.
  assert (Hm : (Qred ((1 # 2) * t) == (1 # 2) * t)%Q) by apply Qred_correct.
  split.
  - apply Bool.negb_false_iff, Qle_bool_iff. rewrite Hm. lra.
  - apply Bool.negb_true_iff, Qle_bool_false. rewrite Hm. lra.
Qed.

(** C1: capacity 3, five transitions added.  The fifth overwrote the fourth
    in slot 1 and the second is still in slot 2: the store does not hold
    the three most recent transitions. *)
Theorem add_overwrites_newest_slot :
  let s := add_all [1; 2; 3; 4; 5] (fresh 3 true 1 1) in
  occupied_count s = 3 /\
  experience s = [Some 3; Some 5; Some 2] /\
  most_recent 3 [1; 2; 3; 4; 5] = [3; 4; 5].
Proof. vm_compute. repeat split. Qed.



(** C3: capacity 2, one transition added (slot 1, priority 1), then its
    priority replaced by 1/2.  [priorities_max] is still 1, above every
    stored priority. *)
Theorem update_priorities_keeps_old_max :
  let s0 := add_all [7] (fresh 2 false 1 1) in
  let s := fst (update_priorities [Some (1 # 2)%Q] [1%Z] s0) in
  snd (update_priorities [Some (1 # 2)%Q] [1%Z] s0) = None /\
  experience s = [None; Some 7] /\
  priority <$> data s = [Some 0%Q; Some (1 # 2)%Q] /\
  priorities_max s = Some 1%Q.
Proof. vm_compute. repeat split. Qed.

(** C4 fails: capacity 2, three transitions added; the counter is 2. *)
Lemma experience_count_stops_at_capacity :
  experience_count (add_all [1; 2; 3] (fresh 2 true 1 1)) <> length [1; 2; 3].
Proof. vm_compute. discriminate. Qed.

Lemma experience_count_capped_witness :
  0 < 2 /\
  experience_count (add_all [1; 2; 3] (fresh 2 true 1 1))
    = Nat.min (length [1; 2; 3]) 2.
Proof.
  split; [lia|].
  apply (experience_count_capped 2 2 true (Some 1%Q) (Some 1%Q) [1; 2; 3]). lia.
Defined.

(** C5 fails: the first [add] on a fresh buffer of capacity 2 leaves slot 0,
    the slot the counter before the call names, empty; the transition is
    in slot 1. *)
Lemma first_add_skips_slot_zero :
  let s := fresh 2 true 1 1 in
  spec_write_slot s = 0 /\
  experience (fst (add 7 s)) !! spec_write_slot s <> Some (Some 7) /\
  experience (fst (add 7 s)) !! 1 = Some (Some 7).
Proof. vm_compute. repeat split. discriminate. Qed.

Lemma add_writes_incremented_slot_witness :
  let s := fresh 2 true 1 1 in
  shaped s /\ experience_count s < buffer_size s /\
  experience (fst (add 7 s)) !! ((experience_count s + 1) mod buffer_size s)
    = Some (Some 7).
Proof.
  assert (Hs : shaped (fresh 2 true 1 1)) by (split; reflexivity).
  assert (Hc : experience_count (fresh 2 true 1 1) < buffer_size (fresh 2 true 1 1))
    by (vm_compute; lia).
  split; [exact Hs|]. split; [exact Hc|].
  exact (proj1 (proj2 (add_writes_incremented_slot _ 7 Hs Hc))).
Defined.

(** C6: capacity 2, [alpha = 0], [beta = 1], two transitions added, then
    [update_parameters].  Both rows have priority 1, so the weight the
    specification gives is (2 * 1) ^ -1 / 1 = 1/2 for both; the code takes
    the stored probability in place of the priority and leaves slot 0 with
    weight (2 * 1/2) ^ -1 / 1 = 1. *)
Theorem update_parameters_weight_from_probability :
  let s0 := add_all [1; 2] (fresh 2 true 0 1) in
  let s := fst (update_parameters s0) in
  snd (update_parameters s0) = None /\
  experience s = [Some 2; Some 1] /\
  priority <$> data s0 = [Some 1%Q; Some 1%Q] /\
  probability <$> data s0 = [Some (1 # 2)%Q; Some 1%Q] /\
  weight <$> data s = [Some 1%Q; Some (1 # 2)%Q] /\
  spec_weight s <$> data s = [Some (1 # 2)%Q; Some (1 # 2)%Q].
Proof. vm_compute. repeat split. Qed.



(** C8 fails: a fresh buffer of capacity 2 with [alpha = 0] and
    [compute_weights = False], after one [update_parameters].  No slot is
    occupied, slot 0 has probability 1/2, and [sample] returns a batch. *)
Lemma sample_returns_on_empty_buffer :
  let s := fst (update_parameters (fresh 2 false 0 1)) in
  occupied_count s = 0 /\
  experience s = [None; None] /\
  sample (fun _ => Some (1 # 2)%Q) s
    = inr ([None; None], [Some 1%Q; Some 1%Q], [0%Z; 0%Z]).
Proof. vm_compute. repeat split. Qed.

Lemma sample_fails_without_probability_witness :
  let s := fresh 2 true (1 # 2) (1 # 2) in
  data s <> [] /\
  Forall (fun r => probability r = zero) (data s) /\
  sample (fun _ => Some (1 # 2)%Q) s = inl ValueError.
Proof.
  assert (Hne : data (fresh 2 true (1 # 2) (1 # 2)) <> []) by discriminate.
  assert (Hz : Forall (fun r : Row xnum => probability r = zero)
                 (data (fresh 2 true (1 # 2) (1 # 2))))
    by (repeat constructor).
  split; [exact Hne|]. split; [exact Hz|].
  exact (sample_fails_without_probability _ _ Hne Hz).
Defined.



End PrioritizedReplayBufferRuns.

(** * The uniform buffer *)

Module ReplayBufferFacts.
Import ReplayBuffer.

Section Facts.
Context {T : Type}.
Implicit Types (s : RB T) (trs : list T).

Lemma mod_differs (m j n : nat) :
  j < n -> n < j + m -> j mod m <> n mod m.
Proof.
  intros Hjn Hnm Heq.
  assert (Hm : m <> 0) by lia.
  pose proof (Nat.div_mod_eq n m) as Hn.
  pose proof (Nat.div_mod_eq j m) as Hj.
  rewrite <- Heq in Hn.
  assert (Hq : n / m <= j / m) by nia.
  nia.
Qed.

(** After [trs] on a fresh buffer: the length, the cursor, and where each
    stored transition came from. *)
Lemma add_all_fresh (m : nat) trs :
  0 < m ->
  let s := add_all trs (init m) in
  let n := length trs in
  _maxsize s = m /\
  len s = Nat.min n m /\
  _next_idx s = n mod m /\
  (forall j, j < n -> n <= j + m -> _storage s !! (j mod m) = trs !! j) /\
  (forall i x, _storage s !! i = Some x ->
     exists j, j < n /\ n <= j + m /\ j mod m = i /\ trs !! j = Some x).
Proof.
  intros Hm. induction trs as [|t trs IH] using rev_ind.
  - cbn. repeat split; try lia.
    + rewrite Nat.Div0.mod_0_l. reflexivity.
    + intros i x Hx. discriminate.
  - cbv zeta in *. destruct IH as (Hmax & Hlen & Hnext & Hwin & Hsrc).
    unfold add_all in *. rewrite fold_left_app. cbn [fold_left].
    set (s := fold_left (fun s tr => fst (add tr s)) trs (init m)) in *.
    rewrite length_app. cbn [length]. set (n := length trs) in *.
    unfold len in Hlen. unfold add, len. rewrite Hmax, Hnext, Hlen.
    destruct (Nat.eqb_spec m 0) as [|_]; [lia|]. cbn [fst].
    cbn [_storage _maxsize _next_idx].
    assert (Hstep : (n mod m + 1) mod m = (n + 1) mod m)
      by (rewrite Nat.Div0.add_mod_idemp_l; reflexivity).
    pose proof (Nat.mod_upper_bound n m ltac:(lia)) as Hlt.
    destruct (Nat.leb_spec (Nat.min n m) (n mod m)) as [Hle | Hgt].
    + (* still growing *)
      assert (Hnm : n < m) by lia.
      assert (Hmod : n mod m = n) by (apply Nat.mod_small; lia).
      split; [reflexivity|]. split; [rewrite length_app; cbn; lia|].
      split; [exact Hstep|]. split.
      * intros j Hj Hw. rewrite (Nat.mod_small j m) by lia.
        destruct (Nat.eq_dec j n) as [-> | Hne].
        -- rewrite !lookup_app_r by lia.
           replace (n - length (_storage s)) with 0 by lia.
           replace (n - length trs) with 0 by (fold n; lia). reflexivity.
        -- rewrite !lookup_app_l by (fold n; lia).
           rewrite <- (Nat.mod_small j m) at 1 by lia.
           apply Hwin; lia.
      * intros i x Hx. apply lookup_app_Some in Hx as [Hx | [Hge Hx]].
        -- destruct (Hsrc i x Hx) as (j & Hj & Hw & Hji & Hjx).
           exists j. repeat split; try lia.
           rewrite lookup_app_l by (fold n; lia). exact Hjx.
        -- apply list_lookup_singleton_Some in Hx as [Hi <-].
           exists n. repeat split; try lia.
           rewrite lookup_app_r by (fold n; lia).
           replace (n - length trs) with 0 by (fold n; lia). reflexivity.
    + (* full: overwrite at the cursor *)
      assert (Hnm : m <= n).
      { destruct (Nat.lt_ge_cases n m) as [Hsmall | ?]; [|assumption].
        rewrite (Nat.mod_small n m) in Hgt by exact Hsmall. lia. }
      split; [reflexivity|]. split; [rewrite length_insert; lia|].
      split; [exact Hstep|]. split.
      * intros j Hj Hw.
        destruct (Nat.eq_dec j n) as [-> | Hne].
        -- rewrite list_lookup_insert_eq by lia.
           rewrite lookup_app_r by (fold n; lia).
           replace (n - length trs) with 0 by (fold n; lia). reflexivity.
        -- rewrite list_lookup_insert_ne
             by (intros Heq; apply (mod_differs m j n); lia).
           rewrite lookup_app_l by (fold n; lia). apply Hwin; lia.
      * intros i x Hx.
        apply list_lookup_insert_Some in Hx as [(<- & <- & _) | (Hne & Hx)].
        -- exists n. repeat split; try lia.
           rewrite lookup_app_r by (fold n; lia).
           replace (n - length trs) with 0 by (fold n; lia). reflexivity.
        -- destruct (Hsrc i x Hx) as (j & Hj & Hw & Hji & Hjx).
           exists j. split; [lia|]. split.
           ++ destruct (Nat.eq_dec (j + m) n) as [Heq | ?]; [|lia].
              exfalso. apply Hne. rewrite <- Hji, <- Heq.
              replace (j + m) with (j + 1 * m) by lia.
              apply Nat.Div0.mod_add.
           ++ split; [exact Hji|].
              rewrite lookup_app_l by (fold n; lia). exact Hjx.
Qed.

(** X1: after [n] calls of [add] on a fresh buffer of size [m > 0] the
    buffer holds [min n m] transitions and the cursor is at [n mod m]. *)
Theorem uniform_length_and_cursor (m : nat) trs :
  0 < m ->
  len (add_all trs (init m)) = Nat.min (length trs) m /\
  _next_idx (add_all trs (init m)) = length trs mod m.
Proof.
  intros Hm. destruct (add_all_fresh m trs Hm) as (_ & Hlen & Hnext & _).
  split; assumption.
Qed.

(** X2: circular overwrite.  On a fresh buffer of size [m > 0] the [j]-th
    transition added (from 0) sits in slot [j mod m] for as long as fewer
    than [m] transitions were added after it, and the buffer holds the
    most recent [min n m] transitions and nothing else. *)
Theorem uniform_keeps_most_recent (m : nat) trs :
  0 < m ->
  let s := add_all trs (init m) in
  (forall j, j < length trs -> length trs <= j + m ->
     _storage s !! (j mod m) = trs !! j) /\
  (forall x, x ∈ _storage s <-> x ∈ drop (length trs - m) trs).
Proof.
  intros Hm s. destruct (add_all_fresh m trs Hm) as (_ & _ & _ & Hwin & Hsrc).
  fold s in Hwin, Hsrc. split; [exact Hwin|].
  intros x. rewrite !list_elem_of_lookup. split.
  - intros [i Hi]. destruct (Hsrc i x Hi) as (j & Hj & Hw & _ & Hjx).
    exists (j - (length trs - m)). rewrite lookup_drop.
    replace (length trs - m + (j - (length trs - m))) with j by lia.
    exact Hjx.
  - intros [i Hi]. rewrite lookup_drop in Hi.
    pose proof (lookup_lt_Some _ _ _ Hi) as Hlt.
    exists ((length trs - m + i) mod m). rewrite Hwin by lia. exact Hi.
Qed.

Lemma add_size_zero (t : T) s :
  _maxsize s = 0 -> _next_idx s = 0 -> length (_storage s) <= 1 ->
  add t s = (mkRB [t] 0 0, Some ZeroDivisionError).
Proof.
  destruct s as [st mx nx]. cbn. intros -> -> Hlen.
  destruct st as [|a [|b st]]; cbn in *; [reflexivity | reflexivity | lia].
Qed.

(** X3: a buffer of size 0.  Every [add] stores its transition and then
    raises ZeroDivisionError; the cursor never moves, so the list never
    grows past one entry and holds the last transition passed. *)
Theorem uniform_size_zero trs (t : T) :
  let s := add_all (trs ++ [t]) (init 0) in
  _storage s = [t] /\ _next_idx s = 0 /\
  forall t', snd (add t' s) = Some ZeroDivisionError /\
             _storage (fst (add t' s)) = [t'].
Proof.
  assert (Hinv : forall l, let u := add_all l (init (T := T) 0) in
            _maxsize u = 0 /\ _next_idx u = 0 /\ length (_storage u) <= 1).
  { intros l. induction l as [|t0 l IH] using rev_ind.
    - cbn. repeat split; lia.
    - cbv zeta in *. destruct IH as (Hmax & Hnext & Hlen).
      unfold add_all in *. rewrite fold_left_app. cbn [fold_left].
      rewrite (add_size_zero t0 _ Hmax Hnext Hlen). cbn. repeat split; lia. }
  intros s. subst s. destruct (Hinv trs) as (Hmax & Hnext & Hlen).
  unfold add_all in *. rewrite fold_left_app. cbn [fold_left].
  rewrite (add_size_zero t _ Hmax Hnext Hlen). cbn [fst _storage _next_idx].
  split; [reflexivity|]. split; [reflexivity|].
  intros t'. rewrite add_size_zero by (cbn; lia). split; reflexivity.
Qed.

(** X4: [_encode_sample] reads the list with Python's indexing.  It raises
    IndexError exactly when some index is outside [-len, len); otherwise
    it returns one transition per index, in the order of the indices, a
    negative index counting from the end. *)
Theorem encode_sample_indexing (idxes : list Z) s :
  let n := Z.of_nat (length (_storage s)) in
  (_encode_sample idxes s = inl IndexError <->
     Exists (fun i => (n <= i \/ i < - n)%Z) idxes) /\
  (forall batch, _encode_sample idxes s = inr batch <->
     Forall2 (fun i x =>
                _storage s !! Z.to_nat (if (i <? 0)%Z then i + n else i) = Some x
                /\ (- n <= i < n)%Z) idxes batch).
Proof.
  intros n. subst n. induction idxes as [|i idxes [IHe IHb]].
  - cbn. split.
    + split; [discriminate | intros Hex; inversion Hex].
    + intros batch. split.
      * intros [= <-]. constructor.
      * intros Hf. inversion Hf. reflexivity.
  - cbn [_encode_sample].
    set (n := Z.of_nat (length (_storage s))) in *.
    destruct (np_index (length (_storage s)) i) as [j|] eqn:Hix.
    + assert (Hin : (- n <= i < n)%Z /\
                    j = Z.to_nat (if (i <? 0)%Z then i + n else i)).
      { unfold np_index in Hix. subst n.
        destruct (Z.ltb_spec i 0); repeat case_match; simplify_eq; lia. }
      destruct Hin as [Hrange ->].
      pose proof (PrioritizedReplayBufferFacts.np_index_lt _ _ _ Hix) as Hlt.
      destruct (lookup_lt_is_Some_2 _ _ Hlt) as [x Hx].
      cbn. rewrite Hx. cbn.
      destruct (_encode_sample idxes s) as [e | batch'] eqn:Hrest.
      * split.
        -- split.
           ++ intros [= ->]. apply Exists_cons_tl, IHe. reflexivity.
           ++ intros Hex. apply Exists_cons in Hex as [Hbad | Hex]; [lia|].
              apply IHe in Hex. congruence.
        -- intros batch. split; [discriminate|].
           intros Hf. inversion Hf as [|? y ? ys [Hy _] Hys]; subst.
           apply IHb in Hys. discriminate.
      * split.
        -- split; [discriminate|].
           intros Hex. apply Exists_cons in Hex as [Hbad | Hex]; [lia|].
           apply IHe in Hex. discriminate.
        -- intros batch. split.
           ++ intros [= <-]. constructor; [split; assumption|].
              apply IHb. reflexivity.
           ++ intros Hf. inversion Hf as [|? y ? ys [Hy _] Hys]; subst.
              apply IHb in Hys. injection Hys as <-.
              rewrite Hx in Hy. injection Hy as <-. reflexivity.
    + assert (Hout : (n <= i \/ i < - n)%Z).
      { unfold np_index in Hix. subst n. repeat case_match; simplify_eq; lia. }
      cbn. split.
      * split; [intros _; apply Exists_cons_hd, Hout | reflexivity].
      * intros batch. split; [discriminate|].
        intros Hf. inversion Hf as [|? y ? ys [_ Hr] Hys]; subst. lia.
Qed.

Lemma draw_idxes_in_range (rnd : nat -> nat) (n : nat) (ks : list nat) :
  0 < n ->
  draw_idxes rnd (Z.of_nat n - 1) ks
    = inr ((fun k => Z.of_nat (rnd k mod n)) <$> ks).
Proof.
  intros Hn. induction ks as [|k ks IH]; [reflexivity|].
  cbn [draw_idxes fmap list_fmap]. rewrite IH. unfold randint.
  destruct (Z.ltb_spec (Z.of_nat n - 1) 0); [lia|].
  do 2 f_equal.
  replace (Z.of_nat n - 1 - 0 + 1)%Z with (Z.of_nat n) by lia.
  rewrite Nat2Z.inj_mod. lia.
Qed.

Lemma encode_sample_in_range (ks : list nat) s :
  Forall (fun k => k < length (_storage s)) ks ->
  exists batch,
    _encode_sample (Z.of_nat <$> ks) s = inr batch /\
    Forall2 (fun k x => _storage s !! k = Some x) ks batch.
Proof.
  induction ks as [|k ks IH]; intros Hks.
  - exists []. split; [reflexivity | constructor].
  - inversion Hks as [|? ? Hk Hks']; subst.
    destruct (IH Hks') as (batch & Hb & Hf).
    destruct (lookup_lt_is_Some_2 _ _ Hk) as [x Hx].
    exists (x :: batch). cbn [fmap list_fmap _encode_sample].
    change (list_fmap nat Z Z.of_nat ks) with (Z.of_nat <$> ks). rewrite Hb.
    assert (Hix : np_index (length (_storage s)) (Z.of_nat k) = Some k).
    { unfold np_index.
      destruct (Z.leb_spec 0 (Z.of_nat k)); [|lia].
      destruct (Z.ltb_spec (Z.of_nat k) (Z.of_nat (length (_storage s)))); [|lia].
      cbn. rewrite Nat2Z.id. reflexivity. }
    rewrite Hix. cbn. rewrite Hx. split; [reflexivity|].
    constructor; assumption.
Qed.

Lemma sample_drawn (rnd : nat -> nat) (batch_size : nat) s :
  _storage s <> [] ->
  exists batch,
    sample rnd batch_size s = inr batch /\
    length batch = batch_size /\
    (forall k, k < batch_size ->
       batch !! k = _storage s !! (rnd k mod length (_storage s))) /\
    Forall (fun x => x ∈ _storage s) batch.
Proof.
  intros Hne.
  assert (Hn : 0 < length (_storage s))
    by (destruct (_storage s); [contradiction | cbn; lia]).
  unfold sample. rewrite (draw_idxes_in_range rnd _ _ Hn).
  replace ((fun k => Z.of_nat (rnd k mod length (_storage s))) <$> seq 0 batch_size)
    with (Z.of_nat <$> ((fun k => rnd k mod length (_storage s)) <$> seq 0 batch_size))
    by (rewrite <- list_fmap_compose; reflexivity).
  destruct (encode_sample_in_range
              ((fun k => rnd k mod length (_storage s)) <$> seq 0 batch_size) s)
    as (batch & Hb & Hf).
  { apply Forall_fmap, Forall_forall. intros k _. cbn.
    apply Nat.mod_upper_bound. lia. }
  exists batch. split; [exact Hb|].
  pose proof (Forall2_length _ _ _ Hf) as Hlen.
  rewrite length_fmap, length_seq in Hlen.
  split; [lia|]. split.
  - intros k Hk.
    destruct (lookup_lt_is_Some_2 batch k ltac:(lia)) as [x Hx].
    rewrite Hx. symmetry.
    eapply (Forall2_lookup_lr _ _ _ k) in Hf; [exact Hf | | exact Hx].
    rewrite list_lookup_fmap, lookup_seq_lt by lia. reflexivity.
  - apply Forall_forall. intros x Hx.
    apply list_elem_of_lookup in Hx as [k Hx].
    destruct (Forall2_lookup_r _ _ _ _ _ Hf Hx) as (i & _ & Hi).
    apply list_elem_of_lookup. eauto.
Qed.

(** X5: [sample] on a buffer that holds something returns, for every
    generator, exactly [batch_size] transitions, the [k]-th of them the
    entry of the list at the [k]-th drawn position; all of them are
    entries of the list. *)
Theorem uniform_sample_returns (rnd : nat -> nat) (batch_size : nat) s :
  _storage s <> [] ->
  exists batch,
    sample rnd batch_size s = inr batch /\
    length batch = batch_size /\
    (forall k, k < batch_size ->
       batch !! k = _storage s !! (rnd k mod length (_storage s))) /\
    Forall (fun x => x ∈ _storage s) batch.
Proof. apply sample_drawn. Qed.

(** X6: [sample] on an empty buffer raises ValueError as soon as one draw
    is asked for ([randint(0, -1)] has an empty range); with
    [batch_size = 0] nothing is drawn and the empty batch is returned,
    whatever the buffer holds. *)
Theorem uniform_sample_empty (rnd : nat -> nat) (batch_size size : nat) s :
  sample rnd (S batch_size) (init (T := T) size) = inl ValueError /\
  sample rnd 0 s = inr [].
Proof. split; reflexivity. Qed.

(** X7: adding then sampling.  After at least one [add] on a fresh buffer
    of size [m > 0], [sample] returns [batch_size] transitions, each one
    of the most recent [min n m] added. *)
Theorem uniform_sample_recent (rnd : nat -> nat) (batch_size m : nat) trs :
  0 < m -> trs <> [] ->
  exists batch,
    sample rnd batch_size (add_all trs (init m)) = inr batch /\
    length batch = batch_size /\
    Forall (fun x => x ∈ drop (length trs - m) trs) batch.
Proof.
  intros Hm Hne.
  destruct (add_all_fresh m trs Hm) as (_ & Hlen & _ & _ & Hsrc).
  cbv zeta in *.
  assert (Hst : _storage (add_all trs (init m)) <> []).
  { intros Hnil. unfold len in Hlen. rewrite Hnil in Hlen.
    destruct trs; [contradiction | cbn [length] in Hlen; lia]. }
  destruct (sample_drawn rnd batch_size _ Hst)
    as (batch & Hb & Hl & _ & Hin).
  exists batch. split; [exact Hb|]. split; [exact Hl|].
  eapply Forall_impl; [exact Hin|]. cbn. intros x Hx.
  apply list_elem_of_lookup in Hx as [i Hi].
  destruct (Hsrc i x Hi) as (j & Hj & Hw & _ & Hjx).
  apply list_elem_of_lookup. exists (j - (length trs - m)).
  rewrite lookup_drop.
  replace (length trs - m + (j - (length trs - m))) with j by lia.
  exact Hjx.
Qed.

End Facts.
End ReplayBufferFacts.

(** * More on the prioritized buffer *)

Module PrioritizedReplayBufferMore.
Import PrioritizedReplayBuffer PrioritizedReplayBufferFacts.
Import PrioritizedReplayBufferInvariants.

Section Structure.
Context {num : Type} `{PyNum num} {T : Type}.
Implicit Types (s u : PRB num T) (d : list (Row num)).

Lemma np_index_nat (n i : nat) : i < n -> np_index n (Z.of_nat i) = Some i.
Proof.
  intros Hi. unfold np_index.
  destruct (Z.leb_spec 0 (Z.of_nat i)); [|lia].
  destruct (Z.ltb_spec (Z.of_nat i) (Z.of_nat n)); [|lia].
  cbn. rewrite Nat2Z.id. reflexivity.
Qed.

(** *** The counter over mixed sequences *)

Lemma after_counter (c : call num T) s :
  buffer_size (after c s) = buffer_size s /\
  experience_count (after c s) =
    match c with
    | Add _ => if buffer_size s =? 0 then experience_count s + 1
               else if buffer_size s <? experience_count s + 1
                    then buffer_size s else experience_count s + 1
    | _ => experience_count s
    end.
Proof.
  destruct c; cbn [after].
  - destruct (add_frame tr s) as (Hb & _). split; [exact Hb|].
    destruct (Nat.eqb_spec (buffer_size s) 0) as [Hz | Hnz].
    + unfold add. prb_simpl.
      destruct (Nat.eqb_spec (buffer_size s) 0); [reflexivity | contradiction].
    + apply add_experience_count, Hnz.
  - destruct (update_pairs_frame (zip tds indices) s) as (Hb & _ & Hc & _).
    split; assumption.
  - destruct (update_parameters_frame s) as (Hb & _ & _ & Hc & _).
    split; assumption.
  - split; reflexivity.
Qed.

Lemma run_counter (cs : list (call num T)) :
  forall s, 0 < buffer_size s -> experience_count s <= buffer_size s ->
    buffer_size (run cs s) = buffer_size s /\
    experience_count (run cs s)
      = Nat.min (experience_count s + adds cs) (buffer_size s).
Proof.
  induction cs as [|c cs IH]; intros s Hpos Hle.
  - cbn. split; [reflexivity | lia].
  - cbn [run fold_left]. fold (run cs (after c s)).
    destruct (after_counter c s) as [Hb Hc].
    destruct (IH (after c s)) as [IHb IHc].
    + lia.
    + rewrite Hb, Hc. destruct c; try lia.
      destruct (Nat.eqb_spec (buffer_size s) 0); [lia|].
      destruct (Nat.ltb_spec (buffer_size s) (experience_count s + 1)); lia.
    + split; [congruence|]. rewrite IHc, Hb, Hc.
      destruct c; cbn [adds]; try (f_equal; lia).
      destruct (Nat.eqb_spec (buffer_size s) 0); [lia|].
      destruct (Nat.ltb_spec (buffer_size s) (experience_count s + 1)); lia.
Qed.

(** X8: only [add] moves the counter.  After any sequence of calls on a
    fresh buffer of capacity [c > 0], [experience_count], which is what
    [__len__] returns, is the number of [add] calls in the sequence, capped
    at [c]. *)
Theorem counter_counts_adds (c batch : nat) (cw : bool) (a b : num)
    (cs : list (call num T)) :
  0 < c ->
  len (run cs (init c batch cw a b)) = Nat.min (adds cs) c.
Proof.
  intros Hc. unfold len.
  destruct (run_counter cs (init c batch cw a b)) as [_ Hcount];
    [exact Hc | cbn; lia |].
  exact Hcount.
Qed.

(** *** Stored indices *)

Lemma placed_rows_insert d count j (new : Row num) :
  placed_rows d count ->
  np_index (length d) (slot new) = Some j ->
  placed_rows (<[j := new]> d) count.
Proof.
  intros Hp Hnew i r Hr. rewrite length_insert.
  apply list_lookup_insert_Some in Hr as [(<- & <- & _) | (_ & Hr)];
    [left; exact Hnew | exact (Hp i r Hr)].
Qed.

Lemma placed_row_resolves d count i :
  placed_rows d count -> i < length d ->
  exists j, np_index (length d) (slot (row_at d i)) = Some j /\ j < length d.
Proof.
  intros Hp Hi. destruct (lookup_lt_is_Some_2 d i Hi) as [r Hr].
  unfold row_at. rewrite Hr. cbn.
  destruct (Hp i r Hr) as [Hix | [-> _]].
  - exists i. split; assumption.
  - exists 0. split; [apply (np_index_nat (length d) 0); lia | lia].
Qed.

Lemma add_placed (tr : T) s : shaped s -> placed s -> placed (fst (add tr s)).
Proof.
  intros [Hd He] Hp.
  destruct (Nat.eq_dec (buffer_size s) 0) as [Hz | Hnz].
  - intros i r Hr. destruct (add_frame tr s) as (_ & Hl & _).
    apply lookup_lt_Some in Hr. lia.
  - pose proof (add_index_lt s Hnz) as Hix.
    destruct (add_frame tr s) as (_ & Hl & _).
    pose proof (add_experience_count tr s Hnz) as Hc.
    intros i r Hr. rewrite Hl, Hc.
    destruct (Nat.eq_dec i (add_index s)) as [-> | Hne].
    + left. rewrite add_unfold in Hr by exact Hnz.
      unfold store in Hr; prb_simpl.
      apply list_lookup_insert_Some in Hr as [(_ & <- & _) | (Hbad & _)];
        [|contradiction].
      prb_simpl. apply np_index_nat. lia.
    + rewrite add_other_rows in Hr by assumption.
      pose proof (lookup_lt_Some _ _ _ Hr) as Hlt.
      destruct (Hp i r Hr) as [Hres | [-> Hgt]]; [left; exact Hres|].
      right. split; [reflexivity|].
      destruct (Nat.ltb_spec (buffer_size s) (experience_count s + 1)); [lia|].
      unfold add_index in Hne.
      destruct (Nat.eq_dec (experience_count s + 1) (buffer_size s)); [lia|].
      rewrite Nat.mod_small in Hne by lia. lia.
Qed.

Lemma update_priority_placed td index s :
  placed s -> placed (fst (update_priority td index s)).
Proof.
  intros Hp. unfold update_priority. repeat case_match; prb_simpl;
    unfold placed; prb_simpl; try exact Hp;
    apply placed_rows_insert; prb_simpl; assumption.
Qed.

Lemma update_pairs_placed (pairs : list (num * Z)) s :
  placed s -> placed (fst (update_pairs pairs s)).
Proof.
  revert s. induction pairs as [|[td index] pairs IH]; intros s Hs; [exact Hs|].
  cbn [update_pairs].
  pose proof (update_priority_placed td index s Hs) as F.
  destruct (update_priority td index s) as [s1 [e|]]; prb_simpl;
    [exact F | apply IH, F].
Qed.

Lemma refresh_row_placed N i s :
  placed s -> i < length (data s) ->
  snd (refresh_row N i s) = None /\ placed (fst (refresh_row N i s)) /\
  length (data (fst (refresh_row N i s))) = length (data s).
Proof.
  intros Hp Hi.
  destruct (placed_row_resolves _ _ i Hp Hi) as (j & Hj & _).
  unfold refresh_row. rewrite Hj. prb_simpl.
  split; [reflexivity|]. split; [|apply length_insert].
  unfold placed; prb_simpl. apply placed_rows_insert; [exact Hp | exact Hj].
Qed.

Lemma refresh_rows_placed N rows :
  forall s, placed s -> Forall (fun i => i < length (data s)) rows ->
    snd (refresh_rows N rows s) = None /\ placed (fst (refresh_rows N rows s)).
Proof.
  induction rows as [|i rows IH]; intros s Hp Hrows; [split; [reflexivity | exact Hp]|].
  inversion Hrows as [|? ? Hi Hrest]; subst. cbn [refresh_rows].
  destruct (refresh_row_placed N i s Hp Hi) as (He & Hp' & Hl).
  destruct (refresh_row N i s) as [s1 e]. prb_simpl. subst e.
  apply IH; [exact Hp' | rewrite Hl; exact Hrest].
Qed.

Lemma update_parameters_placed s :
  placed s ->
  snd (update_parameters s) = None /\ placed (fst (update_parameters s)).
Proof.
  intros Hp. unfold update_parameters.
  apply refresh_rows_placed.
  - case_match; prb_simpl; exact Hp.
  - apply Forall_forall. intros i Hi. apply elem_of_seq in Hi.
    case_match; prb_simpl; lia.
Qed.

Lemma init_placed size batch cw (a b : num) :
  placed (init (T := T) size batch cw a b).
Proof.
  intros i r Hr. unfold init in *; prb_simpl.
  apply lookup_replicate in Hr as [-> Hi]. rewrite length_replicate.
  destruct i as [|i]; [left; apply (np_index_nat size 0); lia|].
  right. split; [reflexivity | lia].
Qed.

Lemma run_placed (cs : list (call num T)) :
  forall s, shaped s -> placed s -> shaped (run cs s) /\ placed (run cs s).
Proof.
  induction cs as [|c cs IH]; intros s Hs Hp; [split; assumption|].
  cbn [run fold_left]. apply IH; [apply after_shaped, Hs|].
  destruct c; cbn [after];
    [apply add_placed | apply update_pairs_placed
    | apply update_parameters_placed | ]; assumption.
Qed.


(** *** What [sample] hands out *)

Lemma choices_members (rnd : nat -> num) (population : list (Row num))
    (weights : list num) (k : nat) (rows : list (Row num)) :
  choices rnd population weights k = inr rows ->
  length rows = k /\ population <> [] /\ Forall (fun r => r ∈ population) rows.
Proof.
  unfold choices.
  destruct (Nat.eqb_spec (length (accumulate weights)) (length population))
    as [Hlen | _]; [|discriminate]. cbn [negb].
  destruct (last (accumulate weights)) as [c|] eqn:Hlast; [|discriminate].
  destruct (nleb (nadd c zero) zero); [discriminate|].
  destruct (isfinite (nadd c zero)); [|discriminate]. cbn [negb].
  intros [= <-].
  assert (Hne : population <> []).
  { intros ->. cbn in Hlen. apply length_zero_iff_nil in Hlen.
    rewrite Hlen in Hlast. discriminate. }
  split; [rewrite length_fmap, length_seq; reflexivity|]. split; [exact Hne|].
  apply Forall_fmap, Forall_forall. intros i _. cbn.
  assert (Hpos : 0 < length population)
    by (destruct population; [contradiction | cbn; lia]).
  destruct (bisect_loop_spec (accumulate weights) (nmul (rnd i) (nadd c zero))
              (length population - 1 - 0) 0 (length population - 1)
              ltac:(lia) ltac:(lia)) as (Hb & _).
  cbv zeta in Hb. unfold bisect, row_at.
  destruct (lookup_lt_is_Some_2 population
              (bisect_loop (length population - 1 - 0) (accumulate weights)
                 (nmul (rnd i) (nadd c zero)) 0 (length population - 1))
              ltac:(lia)) as [row Hrow].
  rewrite Hrow. cbn. apply list_elem_of_lookup. eauto.
Qed.

(** X10: what [sample] returns is aligned.  When it returns, the three
    outputs have [batch_size] entries each, and the [k]-th weight, the
    [k]-th index and the [k]-th transition come from one row of [data]:
    its weight, its stored index, and the transition [experience] holds at
    the position numpy reads that index as. *)
Theorem sample_outputs_aligned (rnd : nat -> num) (s : PRB num T)
    (trs : list (option T)) (ws : list num) (idx : list Z) :
  sample rnd s = inr (trs, ws, idx) ->
  length trs = batch_size s /\ length ws = batch_size s /\
  length idx = batch_size s /\
  exists rows,
    Forall (fun r => r ∈ data s) rows /\
    ws = weight <$> rows /\ idx = slot <$> rows /\
    Forall2 (fun r tr =>
               exists p, np_index (length (experience s)) (slot r) = Some p /\
                         experience s !! p = Some tr) rows trs.
Proof.
  unfold sample, _encode_samples.
  destruct (choices rnd (data s) (probability <$> data s) (batch_size s))
    as [e | rows] eqn:Hch; [discriminate|].
  apply choices_members in Hch as (Hlen & _ & Hmem).
  case_match; [discriminate|].
  destruct (mapM _ (slot <$> rows)) as [trs'|] eqn:Hm; [|discriminate].
  intros [= <- <- <-].
  apply mapM_Some in Hm. apply Forall2_fmap_l in Hm.
  pose proof (Forall2_length _ _ _ Hm) as Hl.
  rewrite !length_fmap. repeat split; try lia.
  exists rows. repeat split; try assumption.
  eapply Forall2_impl; [exact Hm|]. cbn. intros r tr Hr.
  destruct (np_index (length (experience s)) (slot r)) as [p|]; [|discriminate].
  exists p. split; [reflexivity | exact Hr].
Qed.


End Structure.

(** ** The priority cap *)

Section PriorityCap.
Context {num : Type} `{PyNum num} `{!OrderLaws num} {T : Type}.
Implicit Types (s u : PRB num T) (d : list (Row num)).

Lemma py_max_fold (key : Row num -> num) (rest : list (Row num)) :
  forall (seen : list (Row num)) (best : Row num),
    Forall (fun y => ngtb (key y) (key best) = false) seen ->
    Forall (fun y =>
              ngtb (key y)
                (key (fold_left
                        (fun best x => if ngtb (key x) (key best) then x else best)
                        rest best)) = false)
           (seen ++ rest).
Proof.
  induction rest as [|x rest IH]; intros seen best Hseen; cbn [fold_left].
  - rewrite app_nil_r. exact Hseen.
  - replace (seen ++ x :: rest) with ((seen ++ [x]) ++ rest)
      by (rewrite <- app_assoc; reflexivity).
    apply IH. apply Forall_app. split.
    + destruct (ngtb (key x) (key best)) eqn:Hx; [|exact Hseen].
      eapply Forall_impl; [exact Hseen|]. cbn. intros y Hy.
      exact (ngtb_le_lt _ _ _ Hy Hx).
    + constructor; [|constructor].
      destruct (ngtb (key x) (key best)) eqn:Hx; [apply ngtb_irrefl | exact Hx].
Qed.

(** [max(rows, key=...)] returns a row no row is above. *)
Lemma py_max_upper (key : Row num -> num) (rows : list (Row num)) :
  Forall (fun y => ngtb (key y) (key (py_max key rows)) = false) rows.
Proof.
  destruct rows as [|r rest]; [constructor|]. unfold py_max.
  apply (py_max_fold key rest [r] r).
  constructor; [apply ngtb_irrefl | constructor].
Qed.

Lemma evict_bounded i s :
  priorities_bounded s -> priorities_bounded (evict i s).
Proof.
  intros Hb. unfold priorities_bounded in *. unfold evict. prb_simpl.
  destruct (neqb (priority (row_at (data s) i)) (priorities_max s)); prb_simpl.
  - pose proof (py_max_upper priority (alter (set_priority zero) i (data s)))
      as Hmax.
    destruct (compute_weights s); prb_simpl; [|exact Hmax].
    case_match; prb_simpl; [|exact Hmax].
    apply Forall_alter; [exact Hmax|]. intros r _ Hr. exact Hr.
  - destruct (compute_weights s); prb_simpl; [|exact Hb].
    case_match; prb_simpl; [|exact Hb].
    apply Forall_alter; [exact Hb|]. intros r _ Hr. exact Hr.
Qed.

Lemma add_bounded (tr : T) s :
  priorities_bounded s -> priorities_bounded (fst (add tr s)).
Proof.
  intros Hb.
  destruct (Nat.eq_dec (buffer_size s) 0) as [Hz | Hnz].
  - unfold add. prb_simpl.
    destruct (Nat.eqb_spec (buffer_size s) 0); [|contradiction]. exact Hb.
  - rewrite add_unfold by exact Hnz.
    assert (Hmid : priorities_bounded (add_mid s)).
    { unfold add_mid. case_match; [apply evict_bounded|]; exact Hb. }
    unfold priorities_bounded in *. unfold store; prb_simpl.
    apply Forall_insert; [exact Hmid|]. prb_simpl. apply ngtb_irrefl.
Qed.

Lemma update_priority_bounded td index s :
  priorities_bounded s -> priorities_bounded (fst (update_priority td index s)).
Proof.
  intros Hb. unfold priorities_bounded in *. unfold update_priority. prb_simpl.
  destruct (ngtb td (priorities_max s)) eqn:Htd; prb_simpl.
  - assert (Hb' : Forall (fun r => ngtb (priority r) td = false) (data s)).
    { eapply Forall_impl; [exact Hb|]. cbn. intros r Hr.
      exact (ngtb_le_lt _ _ _ Hr Htd). }
    repeat case_match; prb_simpl; try exact Hb';
      (apply Forall_insert; [exact Hb' | prb_simpl; apply ngtb_irrefl]).
  - repeat case_match; prb_simpl; try exact Hb;
      (apply Forall_insert; [exact Hb | prb_simpl; exact Htd]).
Qed.

Lemma update_pairs_bounded (pairs : list (num * Z)) s :
  priorities_bounded s -> priorities_bounded (fst (update_pairs pairs s)).
Proof.
  revert s. induction pairs as [|[td index] pairs IH]; intros s Hs; [exact Hs|].
  cbn [update_pairs].
  pose proof (update_priority_bounded td index s Hs) as F.
  destruct (update_priority td index s) as [s1 [e|]]; prb_simpl;
    [exact F | apply IH, F].
Qed.

Lemma refresh_row_bounded N i s :
  priorities_bounded s -> i < length (data s) ->
  priorities_bounded (fst (refresh_row N i s)).
Proof.
  intros Hb Hi. unfold priorities_bounded in *.
  destruct (lookup_lt_is_Some_2 _ _ Hi) as [r Hr].
  unfold refresh_row, row_at. rewrite Hr. cbn [default].
  case_match; prb_simpl; [|exact Hb].
  apply Forall_insert; [exact Hb|]. prb_simpl.
  rewrite Forall_lookup in Hb. exact (Hb i r Hr).
Qed.

Lemma refresh_rows_bounded N rows :
  forall s, priorities_bounded s -> Forall (fun i => i < length (data s)) rows ->
    priorities_bounded (fst (refresh_rows N rows s)).
Proof.
  induction rows as [|i rows IH]; intros s Hb Hrows; [exact Hb|].
  inversion Hrows as [|? ? Hi Hrest]; subst. cbn [refresh_rows].
  pose proof (refresh_row_bounded N i s Hb Hi) as F.
  destruct (refresh_row_frame N i s) as (_ & _ & _ & _ & _ & _ & _ & Hl).
  destruct (refresh_row N i s) as [s1 [e|]]; prb_simpl; [exact F|].
  apply IH; [exact F | rewrite Hl; exact Hrest].
Qed.

Lemma update_parameters_bounded s :
  priorities_bounded s -> priorities_bounded (fst (update_parameters s)).
Proof.
  intros Hb. unfold update_parameters. apply refresh_rows_bounded.
  - unfold priorities_bounded in *. case_match; prb_simpl; exact Hb.
  - apply Forall_forall. intros i Hi. apply elem_of_seq in Hi.
    case_match; prb_simpl; lia.
Qed.

Lemma run_bounded (cs : list (call num T)) :
  forall s, priorities_bounded s -> priorities_bounded (run cs s).
Proof.
  induction cs as [|c cs IH]; intros s Hb; [exact Hb|].
  cbn [run fold_left]. apply IH.
  destruct c; cbn [after];
    [apply add_bounded | apply update_pairs_bounded
    | apply update_parameters_bounded | ]; exact Hb.
Qed.

Lemma init_bounded size batch cw (a b : num) :
  priorities_bounded (init (T := T) size batch cw a b).
Proof.
  unfold priorities_bounded, init; prb_simpl.
  apply Forall_replicate. prb_simpl. apply ngtb_zero_one.
Qed.

(** X12: [priorities_max] is a cap.  After any sequence of calls on a
    buffer, no row of [data] has a priority above [priorities_max]. *)
Theorem priorities_max_bounds_rows (size batch : nat) (cw : bool) (a b : num)
    (cs : list (call num T)) (r : Row num) :
  let s := run cs (init size batch cw a b) in
  r ∈ data s -> ngtb (priority r) (priorities_max s) = false.
Proof.
  intros s Hr.
  pose proof (run_bounded cs _ (init_bounded size batch cw a b)) as Hb.
  unfold priorities_bounded in Hb. rewrite Forall_forall in Hb.
  exact (Hb r Hr).
Qed.


(** X14: [update_parameters] never leaves [beta] above 1. *)
Theorem update_parameters_caps_beta (s : PRB num T) :
  ngtb (beta (fst (update_parameters s))) one = false.
Proof.
  assert (Hloop : forall N rows u,
            exists d, fst (refresh_rows N rows u) = set_data d u).
  { intros N rows. induction rows as [|i rows IH]; intros u.
    - exists (data u). destruct u; reflexivity.
    - cbn [refresh_rows]. unfold refresh_row.
      destruct (np_index _ _) as [j|]; prb_simpl.
      + match goal with |- context [refresh_rows N rows ?v] =>
          destruct (IH v) as [d Hd]; destruct (refresh_rows N rows v) as [v' [e|]]
        end; prb_simpl; subst; eexists; reflexivity.
      + exists (data u). destruct u; reflexivity. }
  unfold update_parameters.
  match goal with |- context [refresh_rows ?N ?rows ?u] =>
    destruct (Hloop N rows u) as [d ->] end.
  prb_simpl. destruct (ngtb (nmul (beta s) (beta_growth_rate s)) one) eqn:Hb;
    prb_simpl; [apply ngtb_irrefl | exact Hb].
Qed.

End PriorityCap.

(** ** Refreshing, filling and updating *)

Section Refresh.
Context {num : Type} `{PyNum num} {T : Type}.
Implicit Types (s u : PRB num T) (d : list (Row num)).




(** X16: once as many transitions were added as the buffer has slots,
    every row stores an index that numpy reads as the row's own position,
    whatever calls were interleaved, negative indices passed to
    [update_priorities] included. *)
Theorem full_buffer_self_indexed (size batch : nat) (cw : bool) (a b : num)
    (cs : list (call num T)) :
  0 < size -> size <= adds cs ->
  self_indexed (run cs (init size batch cw a b)).
Proof.
  intros Hsize Hadds.
  destruct (run_placed cs _ (init_shaped size batch cw a b)
              (init_placed size batch cw a b)) as [[Hd _] Hp].
  destruct (run_counter cs (init size batch cw a b)) as [Hsz Hc];
    [exact Hsize | cbn; lia |].
  change (buffer_size (init size batch cw a b)) with size in *.
  change (experience_count (init size batch cw a b)) with 0 in Hc.
  intros i r Hr. destruct (Hp i r Hr) as [Hix | [_ Hlt]]; [exact Hix|].
  apply lookup_lt_Some in Hr. lia.
Qed.

(** *** Filling *)

Lemma add_all_count (trs : list T) :
  forall s, 0 < buffer_size s -> experience_count s <= buffer_size s ->
    experience_count (add_all trs s)
      = Nat.min (experience_count s + length trs) (buffer_size s).
Proof.
  induction trs as [|tr trs IH]; intros s Hpos Hle; [cbn; lia|].
  cbn [add_all fold_left length]. fold (add_all trs (fst (add tr s))).
  destruct (add_frame tr s) as (Hb & _).
  pose proof (add_experience_count tr s ltac:(lia)) as Hc.
  rewrite IH, Hb, Hc by
    (rewrite ?Hb, ?Hc;
     destruct (Nat.ltb_spec (buffer_size s) (experience_count s + 1)); lia).
  destruct (Nat.ltb_spec (buffer_size s) (experience_count s + 1)); lia.
Qed.

(** X17: while the buffer fills nothing is lost.  After [n <= capacity]
    calls of [add] on a fresh buffer, the [k]-th transition added (from 1)
    is in slot [k mod capacity], and every other slot is still empty. *)
Theorem filling_keeps_every_transition (c batch : nat) (cw : bool) (a b : num)
    (trs : list T) :
  0 < c -> length trs <= c ->
  let s := add_all trs (init c batch cw a b) in
  (forall k, 1 <= k <= length trs ->
     experience s !! (k mod c) = Some (trs !! (k - 1))) /\
  (forall i, i < c -> (forall k, 1 <= k <= length trs -> k mod c <> i) ->
     experience s !! i = Some None).
Proof.
  intros Hc. induction trs as [|t trs IH] using rev_ind; intros Hlen s.
  - subst s. cbn. split; [intros k Hk; lia|].
    intros i Hi _. apply lookup_replicate. auto.
  - rewrite length_app in *. cbn [length] in *.
    destruct (IH ltac:(lia)) as [IHocc IHfree]. clear IH.
    subst s. rewrite add_all_snoc.
    set (u := add_all trs (init c batch cw a b)) in *.
    destruct (add_all_frame trs (init (T := T) c batch cw a b)) as [Hb Hsh].
    destruct (Hsh (init_shaped c batch cw a b)) as [_ Hex].
    change (buffer_size (init c batch cw a b)) with c in Hb. fold u in Hb, Hex.
    assert (Hcount : experience_count u = length trs).
    { unfold u. rewrite add_all_count by (cbn; lia). cbn. lia. }
    rewrite add_experience by lia.
    assert (Hix : add_index u = (length trs + 1) mod c)
      by (unfold add_index; rewrite Hcount, Hb; reflexivity).
    rewrite Hix.
    pose proof (Nat.mod_upper_bound (length trs + 1) c ltac:(lia)) as Hlt.
    assert (Hother : forall k, 1 <= k <= length trs ->
              k mod c <> (length trs + 1) mod c).
    { intros k Hk. rewrite (Nat.mod_small k c) by lia.
      destruct (Nat.eq_dec (length trs + 1) c) as [-> | Hne].
      - rewrite Nat.Div0.mod_same. lia.
      - rewrite Nat.mod_small by lia. lia. }
    split.
    + intros k Hk. destruct (Nat.eq_dec k (length trs + 1)) as [-> | Hne].
      * rewrite list_lookup_insert_eq by lia.
        replace (length trs + 1 - 1) with (length trs) by lia.
        rewrite lookup_app_r by lia. rewrite Nat.sub_diag. reflexivity.
      * rewrite list_lookup_insert_ne by (apply not_eq_sym, Hother; lia).
        rewrite lookup_app_l by lia. apply IHocc. lia.
    + intros i Hi Hfree.
      rewrite list_lookup_insert_ne by (apply Hfree; lia).
      apply IHfree; [exact Hi|]. intros k Hk. apply Hfree. lia.
Qed.


(** *** What [update_priorities] leaves alone *)

Lemma update_priority_other_rows td index s j :
  np_index (length (data s)) index <> Some j ->
  data (fst (update_priority td index s)) !! j = data s !! j.
Proof.
  intros Hne. unfold update_priority. repeat case_match; prb_simpl;
    try reflexivity; apply list_lookup_insert_ne; congruence.
Qed.

Lemma update_pairs_other_rows (pairs : list (num * Z)) j :
  forall s,
    Forall (fun p => np_index (length (data s)) (snd p) <> Some j) pairs ->
    data (fst (update_pairs pairs s)) !! j = data s !! j.
Proof.
  induction pairs as [|[td index] pairs IH]; intros s Hp; [reflexivity|].
  inversion Hp as [|? ? Hhd Htl]; subst. cbn [update_pairs snd] in *.
  pose proof (update_priority_other_rows td index s j Hhd) as Hrow.
  destruct (update_priority_frame td index s) as (_ & _ & _ & _ & Hl).
  destruct (update_priority td index s) as [s1 [e|]]; prb_simpl; [exact Hrow|].
  rewrite IH by (rewrite Hl; exact Htl). exact Hrow.
Qed.

(** X19: [update_priorities] rewrites only the rows its indices name.  A
    row at a position no index of the call is read as keeps all four
    columns, and the call changes neither the stored transitions nor the
    counter, whether it returns or raises. *)
Theorem update_priorities_touches_named_rows (tds : list num)
    (indices : list Z) (s : PRB num T) (j : nat) :
  (forall index, index ∈ indices ->
     np_index (length (data s)) index <> Some j) ->
  let s' := fst (update_priorities tds indices s) in
  data s' !! j = data s !! j /\
  experience s' = experience s /\
  experience_count s' = experience_count s.
Proof.
  intros Hidx s'. subst s'. unfold update_priorities.
  destruct (update_pairs_frame (zip tds indices) s) as (_ & He & Hc & _).
  split; [|split; assumption].
  apply update_pairs_other_rows. apply Forall_forall. intros [td index] Hin.
  apply Hidx. exact (elem_of_zip_r _ _ _ _ Hin).
Qed.

(** *** What stays fixed *)

(** X20: [update_parameters] changes only [alpha], [beta], the running sum
    and rows of [data].  The stored transitions, the counter, both maxima
    ([weights_max] is not recomputed from the new weights) and the shape
    of [data] are as before, whether the call returns or raises. *)
Theorem update_parameters_changes_only_scores (s : PRB num T) :
  let s' := fst (update_parameters s) in
  experience s' = experience s /\
  experience_count s' = experience_count s /\
  priorities_max s' = priorities_max s /\
  weights_max s' = weights_max s /\
  length (data s') = length (data s).
Proof.
  destruct (update_parameters_frame s) as (_ & _ & He & Hc & _ & Hw & Hp & Hl).
  cbv zeta. repeat split; assumption.
Qed.

Lemma after_fixed (c : call num T) s :
  buffer_size (after c s) = buffer_size s /\
  compute_weights (after c s) = compute_weights s.
Proof.
  destruct c; cbn [after].
  - destruct (add_frame tr s) as (Hb & _ & _ & Hc). split; assumption.
  - destruct (update_pairs_frame (zip tds indices) s) as (Hb & _ & _ & Hc & _).
    split; assumption.
  - destruct (update_parameters_frame s) as (Hb & _ & _ & _ & Hc & _).
    split; assumption.
  - split; reflexivity.
Qed.

(** X21: the arrays never change shape.  After any sequence of calls,
    returning or raising, on a buffer constructed with [buffer_size = n],
    [data] and [experience] still have [n] rows, and [buffer_size] and
    [compute_weights] are as constructed. *)
Theorem shape_is_fixed (size batch : nat) (cw : bool) (a b : num)
    (cs : list (call num T)) :
  let s := run cs (init size batch cw a b) in
  length (data s) = size /\ length (experience s) = size /\
  buffer_size s = size /\ compute_weights s = cw.
Proof.
  intros s.
  assert (Hfix : forall (l : list (call num T)) u,
            buffer_size (run l u) = buffer_size u /\
            compute_weights (run l u) = compute_weights u).
  { intros l. induction l as [|c l IH]; intros u; [split; reflexivity|].
    cbn [run fold_left]. fold (run l (after c u)).
    destruct (IH (after c u)) as [-> ->]. apply after_fixed. }
  destruct (Hfix cs (init size batch cw a b)) as [Hb Hc].
  destruct (run_shaped cs _ (init_shaped size batch cw a b)) as [Hd He].
  fold s in Hb, Hc, Hd, He.
  change (buffer_size (init size batch cw a b)) with size in Hb.
  change (compute_weights (init size batch cw a b)) with cw in Hc.
  repeat split; congruence.
Qed.

End Refresh.
End PrioritizedReplayBufferMore.

(** * More runs on the exact carrier *)

Module MoreRuns.
Import PrioritizedReplayBuffer PrioritizedReplayBufferFacts.
Import PrioritizedReplayBufferInvariants PrioritizedReplayBufferMore.
Import PrioritizedReplayBufferRuns.

#[export] Instance xnum_OrderLaws : OrderLaws xnum.
Proof.
  split.
  - intros [x|]; [|reflexivity]. cbn. unfold Qlt_bool.
    apply Bool.negb_false_iff, Qle_bool_iff. lra.
  - intros [y|] [b|] [x|]; cbn; unfold Qlt_bool; try discriminate;
      try reflexivity.
    intros Hyb Hxb.
    apply Bool.negb_false_iff, Qle_bool_iff in Hyb.
    apply Bool.negb_true_iff, Qle_bool_false in Hxb.
    apply Bool.negb_false_iff, Qle_bool_iff. lra.
  - reflexivity.
Qed.

Lemma uniform_length_and_cursor_witness :
  0 < 2 /\
  ReplayBuffer.len (ReplayBuffer.add_all [1; 2; 3] (ReplayBuffer.init 2)) = 2 /\
  ReplayBuffer._next_idx (ReplayBuffer.add_all [1; 2; 3] (ReplayBuffer.init 2)) = 1.
Proof.
  split; [lia|].
  exact (ReplayBufferFacts.uniform_length_and_cursor 2 [1; 2; 3] ltac:(lia)).
Defined.

Lemma uniform_keeps_most_recent_witness :
  0 < 2 /\
  ReplayBuffer._storage (ReplayBuffer.add_all [1; 2; 3] (ReplayBuffer.init 2))
    !! (2 mod 2) = [1; 2; 3] !! 2 /\
  (3 ∈ ReplayBuffer._storage (ReplayBuffer.add_all [1; 2; 3] (ReplayBuffer.init 2))
   <-> 3 ∈ drop (3 - 2) [1; 2; 3]).
Proof.
  split; [lia|].
  pose proof (ReplayBufferFacts.uniform_keeps_most_recent 2 [1; 2; 3] ltac:(lia))
    as [Hwin Hset].
  split; [apply (Hwin 2); cbn; lia | exact (Hset 3)].
Defined.

Lemma uniform_sample_returns_witness :
  ReplayBuffer._storage (ReplayBuffer.add_all [7; 8] (ReplayBuffer.init 2)) <> [] /\
  exists batch,
    ReplayBuffer.sample (fun k => k) 3
      (ReplayBuffer.add_all [7; 8] (ReplayBuffer.init 2)) = inr batch /\
    length batch = 3.
Proof.
  assert (Hne : ReplayBuffer._storage
                  (ReplayBuffer.add_all [7; 8] (ReplayBuffer.init 2)) <> [])
    by discriminate.
  split; [exact Hne|].
  destruct (ReplayBufferFacts.uniform_sample_returns (fun k => k) 3 _ Hne)
    as (batch & Hb & Hl & _).
  exists batch. split; assumption.
Defined.

Lemma uniform_sample_recent_witness :
  0 < 2 /\ [1; 2; 3] <> [] /\
  exists batch,
    ReplayBuffer.sample (fun k => k) 4
      (ReplayBuffer.add_all [1; 2; 3] (ReplayBuffer.init 2)) = inr batch /\
    length batch = 4 /\
    Forall (fun x => x ∈ drop (3 - 2) [1; 2; 3]) batch.
Proof.
  split; [lia|]. split; [discriminate|].
  exact (ReplayBufferFacts.uniform_sample_recent (fun k => k) 4 2 [1; 2; 3]
           ltac:(lia) ltac:(discriminate)).
Defined.

Lemma counter_counts_adds_witness :
  0 < 2 /\ len (run mixed_calls (fresh 2 false 0 1)) = Nat.min (adds mixed_calls) 2.
Proof.
  split; [lia|].
  exact (counter_counts_adds 2 2 false (Some 0%Q) (Some 1%Q) mixed_calls
           ltac:(lia)).
Defined.

Lemma sample_outputs_aligned_witness :
  let s := run mixed_calls (fresh 2 false 0 1) in
  sample (fun _ => Some (1 # 2)%Q) s
    = inr ([Some 3; Some 3], [Some 1%Q; Some 1%Q], [1%Z; 1%Z]) /\
  length [Some 3; Some 3] = batch_size s.
Proof.
  assert (Hs : sample (fun _ => Some (1 # 2)%Q)
                 (run mixed_calls (fresh 2 false 0 1))
               = inr ([Some 3; Some 3], [Some 1%Q; Some 1%Q], [1%Z; 1%Z]))
    by (vm_compute; reflexivity).
  split; [exact Hs|].
  exact (proj1 (sample_outputs_aligned _ _ _ _ _ Hs)).
Defined.


Lemma priorities_max_bounds_rows_witness :
  let s := run mixed_calls (fresh 2 false 0 1) in
  row_at (data s) 1 ∈ data s /\
  ngtb (priority (row_at (data s) 1)) (priorities_max s) = false.
Proof.
  assert (Hin : row_at (data (run mixed_calls (fresh 2 false 0 1))) 1
                ∈ data (run mixed_calls (fresh 2 false 0 1)))
    by (apply list_elem_of_lookup; exists 1; vm_compute; reflexivity).
  split; [exact Hin|].
  exact (priorities_max_bounds_rows 2 2 false (Some 0%Q) (Some 1%Q)
           mixed_calls _ Hin).
Defined.


Lemma update_parameters_caps_beta_witness :
  ngtb (beta (fst (update_parameters (fresh 2 true 0 1)))) one = false.
Proof. exact (update_parameters_caps_beta (fresh 2 true 0 1)). Defined.


Lemma full_buffer_self_indexed_witness :
  0 < 2 /\ 2 <= adds mixed_calls /\
  self_indexed (run mixed_calls (fresh 2 false 0 1)).
Proof.
  assert (Hadds : 2 <= adds mixed_calls) by (vm_compute; lia).
  split; [lia|]. split; [exact Hadds|].
  exact (full_buffer_self_indexed 2 2 false (Some 0%Q) (Some 1%Q) mixed_calls
           ltac:(lia) Hadds).
Defined.

Lemma filling_keeps_every_transition_witness :
  0 < 3 /\ length [7; 8] <= 3 /\
  experience (add_all [7; 8] (fresh 3 true 1 1)) !! (2 mod 3) = Some ([7; 8] !! (2 - 1)) /\
  experience (add_all [7; 8] (fresh 3 true 1 1)) !! 0 = Some None.
Proof.
  assert (Hl : length [7; 8] <= 3) by (cbn; lia).
  split; [lia|]. split; [exact Hl|].
  pose proof (filling_keeps_every_transition 3 2 true (Some 1%Q) (Some 1%Q)
                [7; 8] ltac:(lia) Hl) as [Hocc Hfree].
  split; [apply (Hocc 2); cbn; lia|].
  apply (Hfree 0); [lia|].
  intros k Hk. cbn in Hk.
  destruct k as [|[|[|k]]]; try lia; vm_compute; discriminate.
Defined.

Lemma update_priorities_touches_named_rows_witness :
  let s := add_all [1; 2] (fresh 2 false 1 1) in
  (forall index, index ∈ [0%Z] -> np_index (length (data s)) index <> Some 1) /\
  data (fst (update_priorities [Some 2%Q] [0%Z] s)) !! 1 = data s !! 1.
Proof.
  assert (Hidx : forall index, index ∈ [0%Z] ->
            np_index (length (data (add_all [1; 2] (fresh 2 false 1 1)))) index
              <> Some 1).
  { intros index Hin. inversion Hin as [|? ? ? Hin']; subst;
      [vm_compute; discriminate | inversion Hin']. }
  split; [exact Hidx|].
  exact (proj1 (update_priorities_touches_named_rows [Some 2%Q] [0%Z] _ 1 Hidx)).
Defined.

End MoreRuns.
